(** * Root module generation of consul-terraform-sync (templates/tftmpl/root.go)

    A shallow embedding of the root module compiler: the normalisation of
    [RootModuleInputData], the construction of the HCL document of main.tf
    through the hclwrite body operations, the preamble writer and the loop
    of [initModule] over the file functions, with the properties of the
    specification stated over them. *)

From stdpp Require Import gmap strings list fin_maps sorting pretty.
From Stdlib Require Import Ascii OrderedTypeEx.

#[local] Set Warnings "-register-all".

(** ** Package sort

    The insertion loop of the library, which [sort.Slice] and
    [sort.Strings] run on a short slice:
<<
    for i := a + 1; i < b; i++ {
        for j := i; j > a && less(j, j-1); j-- { data.Swap(j, j-1) }
    }
>>
    The element at [i] moves left while it is less than its left
    neighbour.  [sift] is the inner loop, over the already sorted prefix
    held in reverse (its head is the neighbour at [j-1]); [sort_Slice] is
    the outer loop.

    The library runs this loop alone only on a slice of fewer than seven
    elements; on a longer one it first compares and swaps elements six
    places apart, and above twelve elements it partitions (a quicksort,
    in later releases a pattern-defeating quicksort).  [sort.Slice] is
    not stable: on a longer slice elements with equal keys can change
    their relative order, which this model does not show.  The result of
    the library is always a permutation in which no element is less than
    an earlier one; for elements with distinct keys there is one such
    permutation, and it is the one computed here.  The statements below
    on sorted data use no more than that, and an example with equal keys
    is taken with two elements, where the library runs the loop above
    and nothing else. *)

Module GoSort.

Section Insertion.
Context {A : Type} (less : A → A → bool).

Fixpoint sift (x : A) (prefix_rev : list A) : list A :=
  match prefix_rev with
  | [] => [x]
  | y :: r => if less x y then y :: sift x r else x :: y :: r
  end.

Definition sort_Slice (data : list A) : list A :=
  reverse (foldl (λ prefix_rev x, sift x prefix_rev) [] data).

End Insertion.

(** [sort.Strings]. *)
Definition sort_Strings : list string → list string := sort_Slice String.ltb.

End GoSort.

(** ** Values of go-cty

    The values that reach this package: scalars, lists and objects.  An
    object keeps its attributes as a list of pairs; [AsValueMap] gives the
    Go map of them. *)

Module cty.

Inductive Value : Type :=
  | StringVal (s : string)
  | NumberIntVal (z : Z)
  | BoolVal (b : bool)
  | NullVal
  | ListVal (vs : list Value)
  | ObjectVal (attrs : list (string * Value)).

Definition IsObjectType (v : Value) : bool :=
  match v with ObjectVal _ => true | _ => false end.

Definition AsValueMap (v : Value) : gmap string Value :=
  match v with ObjectVal attrs => list_to_map attrs | _ => ∅ end.

End cty.

(** ** Traversals of hcl *)

Module hcl.

Inductive Traverser : Type :=
  | TraverseRoot (Name : string)
  | TraverseAttr (Name : string).

Definition Traversal : Type := list Traverser.

End hcl.

(** ** Package hclwrite

    A body is the sequence of its items.  [AppendNewBlock] returns the new
    block and the code then fills the block's body through that pointer;
    here the inner body is built first and the finished block appended,
    which gives the same tree because every block is filled before
    anything else is appended to its parent.

    [SetAttributeValue] and [SetAttributeTraversal] either replace the
    expression of the attribute of that name already in the body, where
    it stands, or add a new attribute at the end of the body. *)

Module hclwrite.

Inductive Expression : Type :=
  | ExprLiteral (v : cty.Value)
  | ExprTraversal (t : hcl.Traversal).

Inductive Node : Type :=
  | Newline
  | Comment (text : string)
  | Attribute (name : string) (expr : Expression)
  | Block (typeName : string) (labels : list string) (body : list Node).

Definition Body : Type := list Node.

Definition NewEmptyFile : Body := [].

Definition AppendNewline (b : Body) : Body := b ++ [Newline].

Definition AppendUnstructuredComment (text : string) (b : Body) : Body :=
  b ++ [Comment text].

Definition AppendBlock (typeName : string) (labels : list string)
    (inner : Body) (b : Body) : Body :=
  b ++ [Block typeName labels inner].

Definition isAttribute (name : string) (n : Node) : bool :=
  match n with
  | Attribute name' _ => bool_decide (name' = name)
  | _ => false
  end.

Definition GetAttribute (name : string) (b : Body) : option Node :=
  find (isAttribute name) b.

Fixpoint replaceExpr (name : string) (e : Expression) (b : Body) : Body :=
  match b with
  | [] => []
  | n :: r =>
      if isAttribute name n then Attribute name e :: r
      else n :: replaceExpr name e r
  end.

Definition setAttribute (name : string) (e : Expression) (b : Body) : Body :=
  match GetAttribute name b with
  | Some _ => replaceExpr name e b
  | None => b ++ [Attribute name e]
  end.

Definition SetAttributeValue (name : string) (v : cty.Value) : Body → Body :=
  setAttribute name (ExprLiteral v).

Definition SetAttributeTraversal (name : string) (t : hcl.Traversal)
    : Body → Body :=
  setAttribute name (ExprTraversal t).

(** The names of the attributes and the type names of the blocks that
    stand directly in a body. *)
Definition attributeNames (b : Body) : list string :=
  omap (λ n, match n with Attribute name _ => Some name | _ => None end) b.

Definition blockTypes (b : Body) : list string :=
  omap (λ n, match n with Block t _ _ => Some t | _ => None end) b.

End hclwrite.

(** ** The bytes of a document

    [hclFile.Bytes()] followed by [hclwrite.Format]: one item per line,
    two spaces of indentation per nesting level, block labels and string
    literals quoted and escaped.  What is left out of the library:
    the formatter pads the names of neighbouring attributes so that their
    equal signs line up, and it lexes the bytes again, so that the text of
    a comment that holds a newline continues as plain configuration
    lines; and a quoted literal is decoded as UTF-8, normalised and its
    non-printable runes escaped, which is followed here for the ASCII
    characters only: a byte above 127 is kept as it is. *)

Module hclbytes.
Import hclwrite.

Definition nl : string := String (Ascii.ascii_of_nat 10) EmptyString.
Definition quote_char : Ascii.ascii := Ascii.ascii_of_nat 34.
Definition backslash : Ascii.ascii := Ascii.ascii_of_nat 92.

Definition hexDigit (n : N) : Ascii.ascii :=
  Ascii.ascii_of_N (if (n <? 10)%N then 48 + n else 87 + n)%N.

(** The escape of a rune that is not printable, four hexadecimal digits
    after a backslash and the letter u. *)
Definition unicodeEscape (c : Ascii.ascii) : string :=
  String backslash
    ("u00" +:+ String (hexDigit (Ascii.N_of_ascii c / 16))
                 (String (hexDigit (Ascii.N_of_ascii c mod 16)) "")).

(** [unicode.IsPrint] on a byte: the ASCII characters from the space to
    the tilde; a byte above 127 is taken as part of a printable rune. *)
Definition isPrint (c : Ascii.ascii) : bool :=
  ((32 <=? Ascii.N_of_ascii c)%N && (Ascii.N_of_ascii c <? 127)%N)
  || (128 <=? Ascii.N_of_ascii c)%N.

(** The escape of one character of a quoted literal; [rest] is what
    follows it in the literal. *)
Definition escapeChar (c : Ascii.ascii) (rest : string) : string :=
  if bool_decide (c = Ascii.ascii_of_nat 10) then String backslash "n"
  else if bool_decide (c = Ascii.ascii_of_nat 13) then String backslash "r"
  else if bool_decide (c = Ascii.ascii_of_nat 9) then String backslash "t"
  else if bool_decide (c = quote_char) then String backslash (String quote_char "")
  else if bool_decide (c = backslash) then String backslash (String backslash "")
  else if bool_decide (c = "$"%char ∨ c = "%"%char) then
    match rest with
    | String "{"%char _ => String c (String c "")
    | _ => String c ""
    end
  else if isPrint c then String c ""
  else unicodeEscape c.

Fixpoint escapeQuotedStringLit (s : string) : string :=
  match s with
  | EmptyString => ""
  | String c rest => escapeChar c rest +:+ escapeQuotedStringLit rest
  end.

Definition quoted (s : string) : string :=
  String quote_char (escapeQuotedStringLit s +:+ String quote_char "").

Fixpoint indent (level : nat) : string :=
  match level with O => "" | S n => "  " +:+ indent n end.

Definition concatStrings (ss : list string) : string :=
  foldr String.append "" ss.

Fixpoint joinStrings (sep : string) (ss : list string) : string :=
  match ss with
  | [] => ""
  | [s] => s
  | s :: r => s +:+ sep +:+ joinStrings sep r
  end.

(** [TokensForValue]. *)
Fixpoint valueBytes (level : nat) (v : cty.Value) : string :=
  match v with
  | cty.StringVal s => quoted s
  | cty.NumberIntVal z => pretty z
  | cty.BoolVal b => if b then "true" else "false"
  | cty.NullVal => "null"
  | cty.ListVal vs => "[" +:+ joinStrings ", " (map (valueBytes level) vs) +:+ "]"
  | cty.ObjectVal [] => "{}"
  | cty.ObjectVal attrs =>
      "{" +:+ nl +:+
      (fix attrsBytes (l : list (string * cty.Value)) : string :=
         match l with
         | [] => ""
         | (k, x) :: r =>
             indent (S level) +:+ k +:+ " = " +:+ valueBytes (S level) x
               +:+ nl +:+ attrsBytes r
         end) attrs
      +:+ indent level +:+ "}"
  end.

Definition traverserBytes (t : hcl.Traverser) : string :=
  match t with
  | hcl.TraverseRoot name => name
  | hcl.TraverseAttr name => "." +:+ name
  end.

Definition traversalBytes (t : hcl.Traversal) : string :=
  concatStrings (map traverserBytes t).

Definition exprBytes (level : nat) (e : Expression) : string :=
  match e with
  | ExprLiteral v => valueBytes level v
  | ExprTraversal t => traversalBytes t
  end.

Definition labelsBytes (labels : list string) : string :=
  concatStrings (map (λ l, " " +:+ quoted l) labels).

Fixpoint nodeBytes (level : nat) (n : Node) : string :=
  match n with
  | Newline => nl
  | Comment text => indent level +:+ text
  | Attribute name e =>
      indent level +:+ name +:+ " = " +:+ exprBytes level e +:+ nl
  | Block typeName labels body =>
      indent level +:+ typeName +:+ labelsBytes labels +:+ " {" +:+ nl +:+
      (fix bodyBytes (b : list Node) : string :=
         match b with
         | [] => ""
         | m :: r => nodeBytes (S level) m +:+ bodyBytes r
         end) body
      +:+ indent level +:+ "}" +:+ nl
  end.

Definition Bytes (b : Body) : string :=
  concatStrings (map (nodeBytes 0) b).

End hclbytes.

(** ** Package hcltmpl (templates/hcltmpl)

    Only the uses of this package are among the files at hand. *)

Module hcltmpl.

(** [Variables] is [map[string]cty.Value]. *)
Abbreviation Variables := (gmap string cty.Value).

Record NamedBlock : Type := mkNamedBlock {
  Name : string;
  BlockVariables : Variables;
}.

(** Modelled from the spec: [Variables.Keys] is not among the files at
    hand.  The variable names are handed over in a stable order, and
    every iteration over attribute names is in ascending order: the
    keys of the map, sorted. *)
Definition Keys (v : Variables) : list string :=
  GoSort.sort_Strings (map_to_list v).*1.

(** Modelled from the spec: [NamedBlock.SortedAttributes] is not among
    the files at hand.  Attribute iteration is in ascending name
    order. *)
Definition SortedAttributes (b : NamedBlock) : list string :=
  Keys (BlockVariables b).

(** Modelled from the spec: [NewNamedBlock] is not among the files at
    hand.  It wraps a backend configuration object, a one-entry map
    from the backend's name to its attributes, into a NamedBlock; an
    object without an entry gives the empty NamedBlock. *)
Definition NewNamedBlock (b : gmap string Variables) : NamedBlock :=
  match map_to_list b with
  | [] => mkNamedBlock "" ∅
  | (k, v) :: _ => mkNamedBlock k v
  end.

End hcltmpl.

(** ** Writers, errors and the log

    An [io.Writer] is the bytes written to it so far and the outcome of
    the calls to come: the head of [faults] says whether the next [Write]
    fails.  A [Write] that does not fail has written all of its bytes,
    as the interface requires.  A failing [Write] is taken to write
    nothing; a writer of the library may also have written a part of the
    bytes before it fails, which this model leaves out: what it says of
    the bytes in a writer after a failed [Write] is not said of every
    writer. *)

Module io.

Inductive error : Type :=
  | ErrWrite
  | ErrCreate (path : string)
  | ErrChmod (path : string).

Record Writer : Type := mkWriter {
  written : string;
  faults : list bool;
}.

#[global] Instance error_eq_dec : EqDecision error.
Proof. solve_decision. Defined.

Definition Write (p : string) (w : Writer) : Writer * option error :=
  match faults w with
  | true :: rest => (mkWriter (written w) rest, Some ErrWrite)
  | false :: rest => (mkWriter (written w +:+ p) rest, None)
  | [] => (mkWriter (written w +:+ p) [], None)
  end.

End io.

(** ** Package strings

    The functions of the library that [hcatQuery] calls, on the bytes of
    a string. *)

Module GoStrings.

(** The replacement of the matches of a non-empty [old], leftmost first
    and not overlapping; [skip] counts the bytes of a match still to go
    over. *)
Fixpoint replaceFrom (old new : string) (skip : nat) (s : string) : string :=
  match s with
  | EmptyString => ""
  | String c r =>
      match skip with
      | S k => replaceFrom old new k r
      | O =>
          if String.prefix old s
          then new +:+ replaceFrom old new (String.length old - 1) r
          else String c (replaceFrom old new 0 r)
      end
  end.

(** With an empty [old] the library puts [new] before every UTF-8
    sequence and at the end; here before every byte. *)
Fixpoint insertAround (new : string) (s : string) : string :=
  match s with
  | EmptyString => new
  | String c r => new +:+ String c (insertAround new r)
  end.

Definition ReplaceAll (s old new : string) : string :=
  if bool_decide (old = new) then s
  else if bool_decide (old = "") then insertAround new s
  else replaceFrom old new 0 s.

Fixpoint inCutset (c : ascii) (cutset : string) : bool :=
  match cutset with
  | EmptyString => false
  | String d r => bool_decide (c = d) || inCutset c r
  end.

Fixpoint TrimLeft (s cutset : string) : string :=
  match s with
  | EmptyString => ""
  | String c r => if inCutset c cutset then TrimLeft r cutset else s
  end.

Fixpoint TrimRight (s cutset : string) : string :=
  match s with
  | EmptyString => ""
  | String c r =>
      match TrimRight r cutset with
      | EmptyString => if inCutset c cutset then "" else String c ""
      | r' => String c r'
      end
  end.

(** [strings.Trim], for a cutset of ASCII characters. *)
Definition Trim (s cutset : string) : string :=
  TrimLeft (TrimRight s cutset) cutset.

Fixpoint Join (elems : list string) (sep : string) : string :=
  match elems with
  | [] => ""
  | [e] => e
  | e :: rest => e +:+ sep +:+ Join rest sep
  end.

End GoStrings.

(** ** Package tftmpl (templates/tftmpl/root.go) *)

Module tftmpl.
Import hclwrite.

Definition RootFilename : string := "main.tf".
Definition VarsFilename : string := "variables.tf".
Definition ModuleVarsFilename : string := "variables.module.tf".
Definition TFVarsFilename : string := "terraform.tfvars".
Definition TFVarsTmplFilename : string := "terraform.tfvars.tmpl".
Definition ProvidersTFVarsFilename : string := "providers.tfvars".

Definition RootPreamble : string :=
  "# This file is generated by Consul Terraform Sync." +:+ hclbytes.nl +:+
  "#" +:+ hclbytes.nl +:+
  "# The HCL blocks, arguments, variables, and values are derived from the"
    +:+ hclbytes.nl +:+
  "# operator configuration for Sync. Any manual changes to this file"
    +:+ hclbytes.nl +:+
  "# may not be preserved and could be overwritten by a subsequent update."
    +:+ hclbytes.nl +:+
  "#" +:+ hclbytes.nl.

(** [fmt.Sprintf(TaskPreamble, name, description)]. *)
Definition TaskPreamble (name description : string) : string :=
  "# Task: " +:+ name +:+ hclbytes.nl +:+
  "# Description: " +:+ description +:+ hclbytes.nl.

Record Task : Type := mkTask {
  Description : string;
  Name : string;
  Source : string;
  Version : string;
}.

Record Service : Type := mkService {
  Datacenter : string;
  ServiceDescription : string;
  ServiceName : string;
  Namespace : string;
  Tag : string;
  Filter : string;
  CTSUserDefinedMeta : gmap string string;
}.

(** The [Condition] interface: the two methods this file calls. *)
Record Condition : Type := mkCondition {
  SourceIncludesVariable : bool;
  appendModuleAttribute : Body → Body;
}.

(** [Backend] and [ProviderInfo] are [map[string]interface{}]: the
    backend is a configuration object from its name to its attributes,
    and a configuration value is kept as the cty value that
    [hcl2shim.HCL2ValueFromConfigValue] gives for it.  [Backend],
    [Condition] and [backend] can be nil. *)
Record RootModuleInputData : Type := mkInput {
  TerraformVersion : option string;
  Backend : option (gmap string hcltmpl.Variables);
  Providers : list hcltmpl.NamedBlock;
  ProviderInfo : gmap string cty.Value;
  Services : list Service;
  InputTask : Task;
  Variables : hcltmpl.Variables;
  InputCondition : option Condition;
  Path : string;
  FilePerms : N;
  skipOverride : bool;
  backend : option hcltmpl.NamedBlock;
}.

Definition lessProvider (a b : hcltmpl.NamedBlock) : bool :=
  String.ltb (hcltmpl.Name a) (hcltmpl.Name b).

Definition lessService (a b : Service) : bool :=
  String.ltb (ServiceName a) (ServiceName b).

Definition init (d : RootModuleInputData) : RootModuleInputData :=
  {| TerraformVersion := TerraformVersion d;
     Backend := match Backend d with Some b => Some b | None => Some ∅ end;
     Providers := GoSort.sort_Slice lessProvider (Providers d);
     ProviderInfo := ProviderInfo d;
     Services := GoSort.sort_Slice lessService (Services d);
     InputTask := InputTask d;
     Variables := Variables d;
     InputCondition := InputCondition d;
     Path := Path d;
     FilePerms := FilePerms d;
     skipOverride := skipOverride d;
     backend := match Backend d with
                | Some b => Some (hcltmpl.NewNamedBlock b)
                | None => backend d
                end |}.

Definition sortedKeys {A : Type} (m : gmap string A) : list string :=
  GoSort.sort_Strings (map_to_list m).*1.

(** *** The query of a service *)

Definition dquote : string := String hclbytes.quote_char "".
Definition escapedQuote : string := String hclbytes.backslash dquote.

Section Query.
(** [fmt.Sprintf] with the verb [%q], the quoting of package strconv. *)
Variable Quote : string → string.

Definition hcatQuery (s : Service) : string :=
  let opts : list string := [] in
  let opts :=
    if bool_decide (Datacenter s ≠ "")
    then opts ++ ["dc=" +:+ Datacenter s] else opts in
  let opts :=
    if bool_decide (Namespace s ≠ "")
    then opts ++ ["ns=" +:+ Namespace s] else opts in
  let opts :=
    if bool_decide (Tag s ≠ "")
    then opts ++ [escapedQuote +:+ Tag s +:+ escapedQuote +:+ " in Service.Tags"]
    else opts in
  let opts :=
    if bool_decide (Filter s ≠ "")
    then
      let filter := GoStrings.ReplaceAll (Filter s) dquote escapedQuote in
      let filter := GoStrings.Trim filter hclbytes.nl in
      opts ++ [filter]
    else opts in
  let query := Quote (ServiceName s) in
  if bool_decide (0 < length opts)
  then query +:+ " " +:+ dquote
       +:+ GoStrings.Join opts (dquote +:+ " " +:+ dquote) +:+ dquote
  else query.

End Query.

(** *** The document of main.tf *)

Definition var (path : list string) : hcl.Traversal :=
  hcl.TraverseRoot "var" :: map hcl.TraverseAttr path.

(** [m[key]] on a map of values. *)
Definition index (m : hcltmpl.Variables) (key : string) : cty.Value :=
  default cty.NullVal (m !! key).

Section Root.
(** [version.CompatibleTerraformVersionConstraint], a constant of a
    package that is not among the files at hand. *)
Variable TerraformRequiredVersion : string.

Definition requiredProvidersBody (providerInfo : gmap string cty.Value)
    : Body :=
  foldl (λ rb pName,
           match providerInfo !! pName with
           | Some info => SetAttributeValue pName info rb
           | None => rb
           end)
    [] (sortedKeys providerInfo).

Definition backendBody (b : hcltmpl.NamedBlock) : Body :=
  foldl (λ bb attr,
           SetAttributeValue attr (index (hcltmpl.BlockVariables b) attr) bb)
    [] (hcltmpl.SortedAttributes b).

Definition terraformBody (backend : option hcltmpl.NamedBlock)
    (providerInfo : gmap string cty.Value) : Body :=
  let tfBody :=
    SetAttributeValue "required_version"
      (cty.StringVal TerraformRequiredVersion) [] in
  let tfBody :=
    if bool_decide (size providerInfo ≠ 0)
    then AppendBlock "required_providers" []
           (requiredProvidersBody providerInfo) tfBody
    else tfBody in
  match backend with
  | None => tfBody
  | Some b =>
      if bool_decide (hcltmpl.Name b = "") then tfBody
      else AppendBlock "backend" [hcltmpl.Name b] (backendBody b) tfBody
  end.

Definition appendRootTerraformBlock (body : Body)
    (backend : option hcltmpl.NamedBlock)
    (providerInfo : gmap string cty.Value) : Body :=
  AppendBlock "terraform" [] (terraformBody backend providerInfo) body.

(** The keys of an object value, as the code collects them. *)
Definition subAttrsOf (val : cty.Value) : gmap string bool :=
  (λ _, true) <$> cty.AsValueMap val.

Definition objProviderBody (pName attr : string) (val : cty.Value) : Body :=
  foldl (λ ob subAttr,
           SetAttributeTraversal subAttr (var [pName; attr; subAttr]) ob)
    [] (sortedKeys (subAttrsOf val)).

(** One turn of the loop over the sorted attributes of a provider. *)
Definition providerAttrStep (p : hcltmpl.NamedBlock) (providerBody : Body)
    (attr : string) : Body :=
  if bool_decide (attr = "alias") then providerBody
  else if bool_decide (attr = "auto_commit") then providerBody
  else
    let val := index (hcltmpl.BlockVariables p) attr in
    if cty.IsObjectType val
    then AppendBlock attr [] (objProviderBody (hcltmpl.Name p) attr val)
           providerBody
    else SetAttributeTraversal attr (var [hcltmpl.Name p; attr]) providerBody.

Definition providerBody (p : hcltmpl.NamedBlock) : Body :=
  foldl (providerAttrStep p) [] (hcltmpl.SortedAttributes p).

Fixpoint providerLoop (lastIdx i : Z) (providers : list hcltmpl.NamedBlock)
    (body : Body) : Body :=
  match providers with
  | [] => body
  | p :: rest =>
      let body :=
        AppendBlock "provider" [hcltmpl.Name p] (providerBody p) body in
      let body :=
        if bool_decide (i ≠ lastIdx) then AppendNewline body else body in
      providerLoop lastIdx (i + 1) rest body
  end.

Definition appendRootProviderBlocks (body : Body)
    (providers : list hcltmpl.NamedBlock) : Body :=
  providerLoop (Z.of_nat (length providers) - 1) 0 providers body.

Definition appendComment (b : Body) (comment : string) : Body :=
  AppendNewline (AppendUnstructuredComment ("# " +:+ comment) b).

Definition moduleBody (task : Task) (cond : option Condition)
    (varNames : list string) : Body :=
  let mb := SetAttributeValue "source" (cty.StringVal (Source task)) [] in
  let mb :=
    if bool_decide (0 < String.length (Version task))
    then SetAttributeValue "version" (cty.StringVal (Version task)) mb
    else mb in
  let mb := SetAttributeTraversal "services" (var ["services"]) mb in
  let mb :=
    match cond with
    | Some c =>
        if SourceIncludesVariable c then appendModuleAttribute c mb else mb
    | None => mb
    end in
  let mb :=
    if bool_decide (length varNames ≠ 0) then AppendNewline mb else mb in
  foldl (λ mb name, SetAttributeTraversal name (var [name]) mb) mb varNames.

Definition appendRootModuleBlock (body : Body) (task : Task)
    (cond : option Condition) (varNames : list string) : Body :=
  let body :=
    if bool_decide (Description task ≠ "")
    then appendComment body (Description task)
    else body in
  AppendBlock "module" [Name task] (moduleBody task cond varNames) body.

Definition mainDocument (input : RootModuleInputData) : Body :=
  let rootBody := AppendNewline NewEmptyFile in
  let rootBody :=
    appendRootTerraformBlock rootBody (backend input) (ProviderInfo input) in
  let rootBody := AppendNewline rootBody in
  let rootBody := appendRootProviderBlocks rootBody (Providers input) in
  let rootBody := AppendNewline rootBody in
  appendRootModuleBlock rootBody (InputTask input) (InputCondition input)
    (hcltmpl.Keys (Variables input)).

(** *** Writing the files

    What the code does besides computing: the lines it logs and the
    calls it makes on files, in the order they happen. *)

Inductive LogEntry : Type :=
  | WarnPreamble (filename : string)
  | WarnTaskPreamble (filename : string)
  | DebugSkip (filename taskName : string)
  | InfoOverwrite (filename taskName : string)
  | DebugCreating (filename taskName filePath : string)
  | ErrCreateFile (filename taskName : string) (err : io.error)
  | ErrChangePerms (filename taskName : string) (err : io.error)
  | ErrWriteContent (filename taskName : string) (err : io.error)
  | LogLine (line : string).

Inductive Event : Type :=
  | Log (entry : LogEntry)
  | SysCreate (filePath : string)
  | SysChmod (filePath : string) (mode : N)
  | SysSync (filePath : string)
  | CallFileFunc (filename : string).

(** A file function gives the writer after its writes, the lines it
    logged and its error. *)
Definition tfFileFunc : Type :=
  io.Writer → string → RootModuleInputData →
  io.Writer * list LogEntry * option io.error.

Definition writePreamble (w : io.Writer) (task : Task) (filename : string)
    : io.Writer * list LogEntry * option io.error :=
  let '(w, err) := io.Write RootPreamble w in
  let logged :=
    match err with
    | Some _ => [WarnPreamble filename]
    | None => []
    end in
  let '(w, err) := io.Write (TaskPreamble (Name task) (Description task)) w in
  let logged :=
    match err with
    | Some _ => logged ++ [WarnTaskPreamble filename]
    | None => logged
    end in
  (w, logged, err).

Definition newMainTF : tfFileFunc := λ w filename input,
  match writePreamble w (InputTask input) filename with
  | (w, logged, Some err) => (w, logged, Some err)
  | (w, logged, None) =>
      let content := hclbytes.Bytes (mainDocument input) in
      let '(w, err) := io.Write content w in
      (w, logged, err)
  end.

(** The file functions that are not among the files at hand. *)
Variables newVariablesTF newModuleVariablesTF : tfFileFunc.
Variables newTFVarsTmpl newProvidersTFVars : tfFileFunc.

Definition rootFileFuncs : list (string * tfFileFunc) :=
  [ (RootFilename, newMainTF);
    (VarsFilename, newVariablesTF);
    (ModuleVarsFilename, newModuleVariablesTF) ].

Definition tfvarsFileFuncs : list (string * tfFileFunc) :=
  [ (TFVarsTmplFilename, newTFVarsTmpl);
    (ProvidersTFVarsFilename, newProvidersTFVars) ].

(** The file system under the process: the files with their content
    and permission bits, and the calls that fail.  [statErrors] are
    the paths on which [os.Stat] fails for another reason than a
    missing file. *)
Record File : Type := mkFile {
  content : string;
  mode : N;
}.

Record OS : Type := mkOS {
  files : gmap string File;
  statErrors : gset string;
  createErrors : gset string;
  chmodErrors : gset string;
  writeFaults : gmap string (list bool);
  umask : N;
  events : list Event;
}.

Definition withFiles (fs : gmap string File) (os : OS) : OS :=
  mkOS fs (statErrors os) (createErrors os) (chmodErrors os)
    (writeFaults os) (umask os) (events os).

Definition withEvents (evs : list Event) (os : OS) : OS :=
  mkOS (files os) (statErrors os) (createErrors os) (chmodErrors os)
    (writeFaults os) (umask os) evs.

Definition record (e : Event) (os : OS) : OS :=
  withEvents (events os ++ [e]) os.

(** [filepath.Join] of a directory and a file name.  The clean-up of
    the result ([filepath.Clean]: a doubled separator, a trailing
    separator of the directory, [.] and [..]) is left out; the file
    names of this package are five plain names, for which the clean-up
    changes the directory part only. *)
Definition filepath_Join (dir name : string) : string :=
  if bool_decide (dir = "") then name else dir +:+ "/" +:+ name.

Definition fileExists (os : OS) (name : string) : bool :=
  if bool_decide (name ∈ statErrors os) then true
  else bool_decide (is_Some (files os !! name)).

(** [os.Create]: a new file gets mode 0666 less the umask, an
    existing one is truncated and keeps its mode.  The call fails on
    the paths of [createErrors], a set fixed with the state: that the
    system refuses to open an existing file whose permission bits, as a
    [Chmod] before left them, do not let the process write, is not
    modelled, so nothing is said here of a second [os.Create] on a file
    after its mode was changed. *)
Definition os_Create (name : string) (os : OS) : OS * option io.error :=
  if bool_decide (name ∈ createErrors os) then (os, Some (io.ErrCreate name))
  else
    let m :=
      match files os !! name with
      | Some f => mode f
      | None => N.ldiff 438 (umask os)
      end in
    (record (SysCreate name) (withFiles (<[name := mkFile "" m]> (files os)) os),
     None).

Definition file_Chmod (name : string) (perms : N) (os : OS)
    : OS * option io.error :=
  if bool_decide (name ∈ chmodErrors os) then (os, Some (io.ErrChmod name))
  else
    (record (SysChmod name perms)
       (withFiles (alter (λ f, mkFile (content f) perms) name (files os)) os),
     None).

(** The call of a file function on the open file. *)
Definition callFileFunc (newFileFunc : tfFileFunc) (filePath filename : string)
    (input : RootModuleInputData) (os : OS) : OS * option io.error :=
  let w := io.mkWriter "" (default [] (writeFaults os !! filePath)) in
  let '(w, logged, err) := newFileFunc w filename input in
  (withEvents (events os ++ CallFileFunc filename :: map Log logged)
     (withFiles
        (alter (λ f, mkFile (io.written w) (mode f)) filePath (files os)) os),
   err).

(** One turn of the loop of [initModule]: the state after it and the
    error it returns with, if it returns. *)
Definition initFile (input : RootModuleInputData) (filename : string)
    (newFileFunc : tfFileFunc) (os : OS) : OS * option io.error :=
  let taskName := Name (InputTask input) in
  if bool_decide (filename = ModuleVarsFilename)
     && bool_decide (size (Variables input) = 0)
  then (os, None)
  else
    let filePath := filepath_Join (Path input) filename in
    let present := fileExists os filePath in
    if present && skipOverride input
    then (record (Log (DebugSkip filename taskName)) os, None)
    else
      let os :=
        if present then record (Log (InfoOverwrite filename taskName)) os
        else os in
      let os := record (Log (DebugCreating filename taskName filePath)) os in
      match os_Create filePath os with
      | (os, Some err) =>
          (record (Log (ErrCreateFile filename taskName err)) os, Some err)
      | (os, None) =>
          match file_Chmod filePath (FilePerms input) os with
          | (os, Some err) =>
              (record (Log (ErrChangePerms filename taskName err)) os, Some err)
          | (os, None) =>
              match callFileFunc newFileFunc filePath filename input os with
              | (os, Some err) =>
                  (record (Log (ErrWriteContent filename taskName err)) os, Some err)
              | (os, None) => (record (SysSync filePath) os, None)
              end
          end
      end.

(** The map [fileFuncs] is given as the sequence in which [range]
    visits its entries. *)
Fixpoint initModule (input : RootModuleInputData)
    (fileFuncs : list (string * tfFileFunc)) (os : OS)
    : OS * option io.error :=
  match fileFuncs with
  | [] => (os, None)
  | (filename, newFileFunc) :: rest =>
      match initFile input filename newFileFunc os with
      | (os, Some err) => (os, Some err)
      | (os, None) => initModule input rest os
      end
  end.

(** The entries of the merged map; [visit] is the sequence in which
    [range] goes through them. *)
Definition fileFuncs : list (string * tfFileFunc) :=
  rootFileFuncs ++ tfvarsFileFuncs.

Definition InitRootModule (visit : list (string * tfFileFunc))
    (input : RootModuleInputData) (os : OS) : OS * option io.error :=
  initModule (init input) visit os.

End Root.

#[global] Instance LogEntry_eq_dec : EqDecision LogEntry.
Proof. solve_decision. Defined.

#[global] Instance Event_eq_dec : EqDecision Event.
Proof. solve_decision. Defined.

End tftmpl.

(** ** Package driver (driver/terraform.go) *)

Module driver.

Definition terraformVersion : string := "0.13.0-beta2".
Definition releasesURL : string := "https://releases.hashicorp.com".

Record Terraform : Type := mkTerraform {
  logLevel : string;
  path : string;
  dataDir : string;
  workingDir : string;
  skipVerify : bool;
  backend : option (gmap string hcltmpl.Variables);
  version : string;
}.

Record TerraformConfig : Type := mkTerraformConfig {
  LogLevel : string;
  Path : string;
  DataDir : string;
  WorkingDir : string;
  SkipVerify : bool;
  Backend : option (gmap string hcltmpl.Variables);
}.

Definition NewTerraform (config : TerraformConfig) : Terraform :=
  mkTerraform (LogLevel config) (Path config) (DataDir config)
    (WorkingDir config) (SkipVerify config) (Backend config) terraformVersion.

Definition Version (tf : Terraform) : string := version tf.

Section Init.
(** [terraformInstalled] and the method [install] are in another file of
    the package: they read and change a world outside the driver. *)
Context {World error : Type}.
Variable terraformInstalled : string → World → bool.
Variable install : Terraform → World → World * option error.

Inductive LogEntry : Type :=
  | InfoInstalling (version path : string)
  | ErrInstalling (err : error)
  | InfoInstalled
  | InfoSkipping (path : string).

Definition Init (tf : Terraform) (w : World)
    : World * list LogEntry * option error :=
  if negb (terraformInstalled (path tf) w)
  then
    match install tf w with
    | (w, Some err) =>
        (w, [InfoInstalling (version tf) (path tf); ErrInstalling err], Some err)
    | (w, None) =>
        (w, [InfoInstalling (version tf) (path tf); InfoInstalled], None)
    end
  else (w, [InfoSkipping (path tf)], None).

End Init.

End driver.

(** * Properties *)

(** ** Go strings and their order

    Go compares strings with [<] byte by byte; [String.ltb] is that order
    on Rocq strings. *)

Module GoString.

Lemma ltb_lt (a b : string) : String.ltb a b = true ↔ String_as_OT.lt a b.
Proof.
  unfold String.ltb. rewrite <- String_as_OT.cmp_lt.
  unfold String_as_OT.cmp.
  destruct (String.compare a b); split; intros H; congruence.
Qed.

Lemma ltb_irrefl (a : string) : String.ltb a a = false.
Proof.
  destruct (String.ltb a a) eqn:E; [|done].
  apply ltb_lt in E.
  by destruct (String_as_OT.lt_not_eq _ _ E).
Qed.

Lemma ltb_trans (a b c : string) :
  String.ltb a b = true → String.ltb b c = true → String.ltb a c = true.
Proof.
  rewrite !ltb_lt. apply String_as_OT.lt_trans.
Qed.

Lemma ltb_asym (a b : string) :
  String.ltb a b = true → String.ltb b a = false.
Proof.
  intros Hab. destruct (String.ltb b a) eqn:E; [|done].
  pose proof (ltb_trans _ _ _ Hab E) as H.
  by rewrite ltb_irrefl in H.
Qed.

Lemma ltb_total (a b : string) :
  String.ltb a b = false → String.ltb b a = false → a = b.
Proof.
  unfold String.ltb. intros Hab Hba.
  rewrite String.compare_antisym in Hba.
  destruct (String.compare a b) eqn:E; simpl in *; try discriminate.
  by apply String.compare_eq_iff.
Qed.

Lemma ltb_negtrans (a b c : string) :
  String.ltb a b = false → String.ltb b c = false → String.ltb a c = false.
Proof.
  intros Hab Hbc. destruct (String.ltb a c) eqn:Hac; [|done].
  destruct (String.ltb b a) eqn:Hba.
  - by rewrite (ltb_trans _ _ _ Hba Hac) in Hbc.
  - rewrite (ltb_total _ _ Hab Hba) in Hac. by rewrite Hac in Hbc.
Qed.

End GoString.

(** ** The insertion sort *)

Module GoSortFacts.

Section Insertion.
Context {A : Type} (less : A → A → bool).

#[local] Abbreviation sift := (GoSort.sift less).
#[local] Abbreviation sort_Slice := (GoSort.sort_Slice less).

Lemma sift_perm x l : sift x l ≡ₚ x :: l.
Proof.
  induction l as [|y r IH]; simpl; [done|].
  destruct (less x y); [|done].
  rewrite IH. apply Permutation_swap.
Qed.

Lemma foldl_sift_perm data acc :
  foldl (λ prefix_rev x, sift x prefix_rev) acc data ≡ₚ data ++ acc.
Proof.
  revert acc. induction data as [|x data IH]; intros acc; simpl; [done|].
  rewrite IH, sift_perm. by rewrite Permutation_middle.
Qed.

Lemma sort_Slice_perm data : sort_Slice data ≡ₚ data.
Proof.
  unfold GoSort.sort_Slice. rewrite reverse_Permutation.
  rewrite foldl_sift_perm. by rewrite app_nil_r.
Qed.

(** The order laws of a comparison by a key. *)
Hypothesis less_asym : ∀ x y, less x y = true → less y x = false.
Hypothesis less_negtrans :
  ∀ x y z, less x y = false → less y z = false → less x z = false.

(** In the reversed prefix no element is less than a later one. *)
Definition descending : list A → Prop :=
  StronglySorted (λ a b, less a b = false).

Lemma sift_descending x l : descending l → descending (sift x l).
Proof.
  unfold descending.
  induction l as [|y r IH]; intros Hl; simpl.
  - repeat constructor.
  - inversion_clear Hl as [|? ? Hr Hy].
    destruct (less x y) eqn:E.
    + constructor; [by apply IH|].
      rewrite (sift_perm x r). constructor; [by apply less_asym|done].
    + constructor; [by constructor|].
      constructor; [done|].
      rewrite Forall_forall in Hy |- *.
      intros b Hb. eapply less_negtrans; [exact E|by apply Hy].
Qed.

Lemma foldl_sift_descending data acc :
  descending acc →
  descending (foldl (λ prefix_rev x, sift x prefix_rev) acc data).
Proof.
  revert acc. induction data as [|x data IH]; intros acc Hacc; simpl.
  - done.
  - by apply IH, sift_descending.
Qed.

Lemma StronglySorted_rev_flip (R : relation A) l :
  StronglySorted R l → StronglySorted (flip R) (reverse l).
Proof.
  induction 1 as [|x l Hl IH Hx]; [constructor|].
  rewrite reverse_cons.
  apply StronglySorted_app_2; [|done|repeat constructor].
  intros a b Ha Hb. apply list_elem_of_singleton in Hb as ->.
  rewrite Forall_forall in Hx. apply Hx.
  by apply elem_of_reverse.
Qed.

(** The sorted slice: no element is less than an earlier one. *)
Lemma sort_Slice_sorted data :
  StronglySorted (λ a b, less b a = false) (sort_Slice data).
Proof.
  unfold GoSort.sort_Slice.
  apply (StronglySorted_rev_flip (λ a b, less a b = false)).
  apply foldl_sift_descending. constructor.
Qed.

End Insertion.

End GoSortFacts.

(** ** Sorting by a string key *)

Module SortFacts.
Import GoSort GoSortFacts.

Section ByKey.
Context {A : Type} (key : A → string).

Definition lessKey (a b : A) : bool := String.ltb (key a) (key b).

Lemma lessKey_asym x y : lessKey x y = true → lessKey y x = false.
Proof. apply GoString.ltb_asym. Qed.

Lemma lessKey_negtrans x y z :
  lessKey x y = false → lessKey y z = false → lessKey x z = false.
Proof. apply GoString.ltb_negtrans. Qed.

Lemma sort_by_key_sorted (l : list A) :
  StronglySorted (λ a b, lessKey b a = false) (sort_Slice lessKey l).
Proof.
  apply sort_Slice_sorted; [apply lessKey_asym|apply lessKey_negtrans].
Qed.

Lemma key_inj_on (l : list A) (x y : A) :
  NoDup (key <$> l) → x ∈ l → y ∈ l → key x = key y → x = y.
Proof.
  induction l as [|a l IH]; intros Hnd Hx Hy Hk.
  - by apply elem_of_nil in Hx.
  - rewrite fmap_cons in Hnd. apply NoDup_cons in Hnd as [Ha Hnd].
    apply elem_of_cons in Hx as [->|Hx], Hy as [->|Hy]; auto.
    + destruct Ha. rewrite Hk. by apply list_elem_of_fmap_2.
    + destruct Ha. rewrite <- Hk. by apply list_elem_of_fmap_2.
Qed.

(** Two slices with the same elements, whose keys are distinct, sort
    to the same slice. *)
Lemma sort_by_key_perm_eq (l1 l2 : list A) :
  NoDup (key <$> l1) → l1 ≡ₚ l2 →
  sort_Slice lessKey l1 = sort_Slice lessKey l2.
Proof.
  intros Hnd Hp.
  apply (StronglySorted_unique_strong (λ a b, lessKey b a = false)).
  - intros x1 x2 H1 H2 H12 H21.
    rewrite sort_Slice_perm in H1. rewrite sort_Slice_perm, <- Hp in H2.
    apply (key_inj_on l1); [done..|].
    by apply GoString.ltb_total.
  - apply sort_by_key_sorted.
  - apply sort_by_key_sorted.
  - by rewrite !sort_Slice_perm.
Qed.
End ByKey.

Definition ascending : list string → Prop :=
  StronglySorted (λ a b, String.ltb a b = true).

Lemma sort_Strings_perm (l : list string) : sort_Strings l ≡ₚ l.
Proof. apply sort_Slice_perm. Qed.

Lemma sort_Strings_NoDup (l : list string) : NoDup l → NoDup (sort_Strings l).
Proof. intros H. by rewrite sort_Strings_perm. Qed.

Lemma sort_Strings_ascending (l : list string) :
  NoDup l → ascending (sort_Strings l).
Proof.
  intros Hnd. apply sort_Strings_NoDup in Hnd.
  pose proof (sort_by_key_sorted id l) as Hs.
  change (sort_Slice (lessKey id) l) with (sort_Strings l) in Hs.
  unfold ascending.
  induction Hs as [|x r Hr IH Hx]; [constructor|].
  apply NoDup_cons in Hnd as [Hx' Hnd].
  constructor; [by apply IH|].
  rewrite Forall_forall in Hx |- *. intros b Hb.
  destruct (String.ltb x b) eqn:E; [done|].
  destruct Hx'. specialize (Hx b Hb). unfold lessKey in Hx. simpl in Hx.
  by rewrite (GoString.ltb_total _ _ E Hx).
Qed.

Lemma sortedKeys_perm {V : Type} (m : gmap string V) :
  tftmpl.sortedKeys m ≡ₚ (map_to_list m).*1.
Proof. apply sort_Strings_perm. Qed.

Lemma sortedKeys_NoDup {V : Type} (m : gmap string V) :
  NoDup (tftmpl.sortedKeys m).
Proof. apply sort_Strings_NoDup, NoDup_fst_map_to_list. Qed.

Lemma sortedKeys_ascending {V : Type} (m : gmap string V) :
  ascending (tftmpl.sortedKeys m).
Proof. apply sort_Strings_ascending, NoDup_fst_map_to_list. Qed.

Lemma elem_of_sortedKeys {V : Type} (m : gmap string V) (k : string) :
  k ∈ tftmpl.sortedKeys m ↔ is_Some (m !! k).
Proof.
  rewrite sortedKeys_perm, list_elem_of_fmap. split.
  - intros [[k' v] [-> H]]. apply elem_of_map_to_list in H. by exists v.
  - intros [v H]. exists (k, v). split; [done|]. by apply elem_of_map_to_list.
Qed.

End SortFacts.

(** ** Bodies built by setting attributes *)

Module BodyFacts.
Import hclwrite.

Lemma GetAttribute_None name b :
  GetAttribute name b = None ↔ name ∉ attributeNames b.
Proof.
  unfold GetAttribute, attributeNames.
  induction b as [|n r IH]; simpl.
  - split; [intros _; apply not_elem_of_nil|done].
  - destruct n as [| |name' e|]; simpl; try exact IH.
    case_bool_decide as Hn; simpl.
    + subst. split; [done|]. intros []. by left.
    + rewrite IH, not_elem_of_cons.
      split; [intros ?; split; [congruence|done]|by intros [_ ?]].
Qed.

Lemma setAttribute_fresh name e b :
  name ∉ attributeNames b → setAttribute name e b = b ++ [Attribute name e].
Proof.
  intros H. apply GetAttribute_None in H. unfold setAttribute. by rewrite H.
Qed.

Lemma attributeNames_app b1 b2 :
  attributeNames (b1 ++ b2) = attributeNames b1 ++ attributeNames b2.
Proof. apply omap_app. Qed.

Lemma attributeNames_snoc_attr b name e :
  attributeNames (b ++ [Attribute name e]) = attributeNames b ++ [name].
Proof. by rewrite attributeNames_app. Qed.

Lemma attributeNames_snoc_block b t ls inner :
  attributeNames (AppendBlock t ls inner b) = attributeNames b.
Proof.
  unfold AppendBlock. rewrite attributeNames_app. simpl. apply app_nil_r.
Qed.

Lemma blockTypes_app b1 b2 : blockTypes (b1 ++ b2) = blockTypes b1 ++ blockTypes b2.
Proof. apply omap_app. Qed.

(** Setting attributes of distinct names that the body does not have
    yet appends them in order. *)
Lemma foldl_setAttribute_fresh (f : string → Expression) names b :
  NoDup names →
  (∀ n, n ∈ names → n ∉ attributeNames b) →
  foldl (λ b n, setAttribute n (f n) b) b names
  = b ++ map (λ n, Attribute n (f n)) names.
Proof.
  revert b. induction names as [|n names IH]; intros b Hnd Hfresh; simpl.
  - by rewrite app_nil_r.
  - apply NoDup_cons in Hnd as [Hn Hnd].
    rewrite setAttribute_fresh by (apply Hfresh; left).
    rewrite IH; [by rewrite <- app_assoc|done|].
    intros m Hm. rewrite attributeNames_snoc_attr, elem_of_app.
    intros [H|H].
    + by apply (Hfresh m); [right|].
    + apply list_elem_of_singleton in H as ->. done.
Qed.

(** Whatever the body holds, setting an attribute leaves the names of
    the others and has the name set. *)
Lemma replaceExpr_names name e b :
  name ∈ attributeNames b → attributeNames (replaceExpr name e b) = attributeNames b.
Proof.
  induction b as [|n r IH]; simpl; intros H.
  - by apply elem_of_nil in H.
  - destruct n as [| |name' e'|]; simpl in *; try by apply IH.
    case_bool_decide as Hn; simpl.
    + by subst.
    + f_equal. apply IH. apply elem_of_cons in H as [->|H]; done.
Qed.

Lemma elem_of_setAttribute name e b m :
  m ∈ attributeNames (setAttribute name e b) ↔ m = name ∨ m ∈ attributeNames b.
Proof.
  unfold setAttribute. destruct (GetAttribute name b) eqn:E.
  - assert (name ∈ attributeNames b) as Hin.
    { destruct (decide (name ∈ attributeNames b)) as [|Hn]; [done|].
      apply GetAttribute_None in Hn. congruence. }
    rewrite replaceExpr_names by done. split; [by right|].
    by intros [->|?].
  - rewrite attributeNames_snoc_attr, elem_of_app, list_elem_of_singleton.
    tauto.
Qed.

Lemma blockTypes_setAttribute name e b :
  blockTypes (setAttribute name e b) = blockTypes b.
Proof.
  unfold setAttribute. destruct (GetAttribute name b) as [found|].
  - clear found. induction b as [|n r IH]; simpl; [done|].
    destruct n as [| |name' e'|]; simpl; try done.
    + case_bool_decide; simpl; done.
    + by f_equal.
  - rewrite blockTypes_app. simpl. apply app_nil_r.
Qed.

End BodyFacts.

(** ** The provider blocks *)

Module ProviderBlocks.
Import hclwrite tftmpl BodyFacts SortFacts.

Definition suppressed (attr : string) : Prop :=
  attr = "alias" ∨ attr = "auto_commit".

(** The rendering of the provider blocks in the words of the
    specification: what one attribute of a provider becomes, the block
    of a provider, and the blank lines between sibling blocks. *)
Definition specProviderItem (p : hcltmpl.NamedBlock) (attr : string) : Node :=
  let val := index (hcltmpl.BlockVariables p) attr in
  if cty.IsObjectType val
  then Block attr []
         (map (λ key, Attribute key
                        (ExprTraversal (var [hcltmpl.Name p; attr; key])))
            (sortedKeys (subAttrsOf val)))
  else Attribute attr (ExprTraversal (var [hcltmpl.Name p; attr])).

Definition specProviderBlock (p : hcltmpl.NamedBlock) : Node :=
  Block "provider" [hcltmpl.Name p]
    (map (specProviderItem p)
       (filter (λ attr, ¬ suppressed attr) (hcltmpl.SortedAttributes p))).

Fixpoint specSeparated (blocks : list Node) : list Node :=
  match blocks with
  | [] => []
  | [b] => [b]
  | b :: rest => b :: Newline :: specSeparated rest
  end.

(** The names of the attributes at any depth of a body. *)
Fixpoint deepAttributeNames (n : Node) : list string :=
  match n with
  | Attribute name _ => [name]
  | Block _ _ body => concat (map deepAttributeNames body)
  | _ => []
  end.

Lemma SortedAttributes_NoDup p : NoDup (hcltmpl.SortedAttributes p).
Proof. apply (sortedKeys_NoDup (hcltmpl.BlockVariables p)). Qed.

Lemma SortedAttributes_ascending p : ascending (hcltmpl.SortedAttributes p).
Proof. apply (sortedKeys_ascending (hcltmpl.BlockVariables p)). Qed.

Lemma elem_of_SortedAttributes p attr :
  attr ∈ hcltmpl.SortedAttributes p
  ↔ is_Some (hcltmpl.BlockVariables p !! attr).
Proof. apply (elem_of_sortedKeys (hcltmpl.BlockVariables p)). Qed.

Lemma objProviderBody_spec pName attr val :
  objProviderBody pName attr val
  = map (λ key, Attribute key (ExprTraversal (var [pName; attr; key])))
      (sortedKeys (subAttrsOf val)).
Proof.
  unfold objProviderBody, SetAttributeTraversal.
  rewrite (foldl_setAttribute_fresh
             (λ key, ExprTraversal (var [pName; attr; key]))); [done| |].
  - apply sortedKeys_NoDup.
  - intros n _. apply not_elem_of_nil.
Qed.

Lemma providerAttrStep_suppressed p b attr :
  suppressed attr → providerAttrStep p b attr = b.
Proof.
  unfold providerAttrStep. intros [->| ->]; [done|].
  by rewrite bool_decide_false, bool_decide_true.
Qed.

Lemma providerAttrStep_emitted p b attr :
  ¬ suppressed attr → attr ∉ attributeNames b →
  providerAttrStep p b attr = b ++ [specProviderItem p attr].
Proof.
  unfold suppressed, providerAttrStep, specProviderItem. intros Hs Hfresh.
  rewrite !bool_decide_false by tauto.
  destruct (cty.IsObjectType _).
  - by rewrite objProviderBody_spec.
  - by apply setAttribute_fresh.
Qed.

Lemma attributeNames_specProviderItem p attr m :
  m ∈ attributeNames [specProviderItem p attr] → m = attr.
Proof.
  unfold specProviderItem. destruct (cty.IsObjectType _); simpl.
  - intros H. by apply elem_of_nil in H.
  - by intros ->%list_elem_of_singleton.
Qed.

Lemma foldl_providerAttrStep p attrs b :
  NoDup attrs →
  (∀ a, a ∈ attrs → a ∉ attributeNames b) →
  foldl (providerAttrStep p) b attrs
  = b ++ map (specProviderItem p) (filter (λ attr, ¬ suppressed attr) attrs).
Proof.
  revert b. induction attrs as [|a attrs IH]; intros b Hnd Hfresh.
  - simpl. by rewrite app_nil_r.
  - apply NoDup_cons in Hnd as [Ha Hnd].
    assert (∀ x, x ∈ attrs → x ∉ attributeNames b) as Hrest.
    { intros x Hx. apply Hfresh. by right. }
    cbn [foldl]. rewrite filter_cons.
    destruct (decide (¬ suppressed a)) as [Hs|Hs].
    + rewrite providerAttrStep_emitted by (done || apply Hfresh; by left).
      rewrite IH; [by rewrite <- app_assoc|done|].
      intros x Hx. rewrite attributeNames_app, elem_of_app.
      intros [H|H]; [by apply (Hrest x)|].
      apply attributeNames_specProviderItem in H as ->. done.
    + rewrite providerAttrStep_suppressed; [by apply IH|].
      by destruct (decide (suppressed a)).
Qed.

Lemma providerBody_spec p :
  providerBody p
  = map (specProviderItem p)
      (filter (λ attr, ¬ suppressed attr) (hcltmpl.SortedAttributes p)).
Proof.
  unfold providerBody. rewrite foldl_providerAttrStep; [done| |].
  - apply SortedAttributes_NoDup.
  - intros a _. apply not_elem_of_nil.
Qed.

Lemma providerLoop_spec providers i body :
  providerLoop (i + Z.of_nat (length providers) - 1) i providers body
  = body ++ specSeparated (map specProviderBlock providers).
Proof.
  revert i body. induction providers as [|p rest IH]; intros i body.
  - simpl. by rewrite app_nil_r.
  - cbn [providerLoop]. rewrite providerBody_spec.
    fold (specProviderBlock p).
    replace (i + Z.of_nat (length (p :: rest)) - 1)%Z
      with (i + 1 + Z.of_nat (length rest) - 1)%Z by (simpl; lia).
    destruct rest as [|q rest].
    + rewrite bool_decide_false by (simpl; lia). simpl. done.
    + rewrite bool_decide_true by (simpl; lia).
      rewrite IH. unfold AppendNewline, AppendBlock.
      rewrite <- !app_assoc. done.
Qed.

End ProviderBlocks.

(** ** Statements on the provider blocks *)

Module ProviderClaims.
Import hclwrite tftmpl BodyFacts SortFacts ProviderBlocks.

(** The rendering of one provider in the words of the specification,
    stated on the entries of the NamedBlock themselves.

    [var.<provider>.<attribute>] and [var.<provider>.<attribute>.<key>]: *)
Definition specAttributeTraversal (provider attr : string) : hcl.Traversal :=
  [hcl.TraverseRoot "var"; hcl.TraverseAttr provider; hcl.TraverseAttr attr].

Definition specKeyTraversal (provider attr key : string) : hcl.Traversal :=
  [hcl.TraverseRoot "var"; hcl.TraverseAttr provider; hcl.TraverseAttr attr;
   hcl.TraverseAttr key].

(** What an attribute of the provider becomes: for an object value, a
    nested block named after the attribute that holds, for every key of
    the object and in ascending order, the traversal of the key; for
    any other value, the traversal of the attribute. *)
Definition rendersAttribute (p : hcltmpl.NamedBlock) (attr : string)
    (item : Node) : Prop :=
  match hcltmpl.BlockVariables p !! attr with
  | Some (cty.ObjectVal fields) =>
      ∃ keys,
        ascending keys
        ∧ (∀ key, key ∈ keys ↔ key ∈ fields.*1)
        ∧ item
          = Block attr []
              (map (λ key, Attribute key
                             (ExprTraversal
                                (specKeyTraversal (hcltmpl.Name p) attr key)))
                 keys)
  | Some _ =>
      item
      = Attribute attr
          (ExprTraversal (specAttributeTraversal (hcltmpl.Name p) attr))
  | None => False
  end.

(** The block of a provider: labelled with its name, with one item for
    every attribute of the NamedBlock other than [alias] and
    [auto_commit], in ascending order of the attribute names. *)
Definition rendersProvider (p : hcltmpl.NamedBlock) (block : Node) : Prop :=
  ∃ attrs items,
    ascending attrs
    ∧ (∀ attr, attr ∈ attrs
               ↔ is_Some (hcltmpl.BlockVariables p !! attr)
                 ∧ attr ≠ "alias" ∧ attr ≠ "auto_commit")
    ∧ Forall2 (rendersAttribute p) attrs items
    ∧ block = Block "provider" [hcltmpl.Name p] items.

Definition aliasedProvider : hcltmpl.NamedBlock :=
  hcltmpl.mkNamedBlock "aws"
    {[ "alias" := cty.StringVal "west";
       "region" := cty.StringVal "us-west-2" ]}.

(** C3, as stated, fails: not every attribute of the block is rendered.
    A provider with the attributes [alias] and [region] gives a block
    with [region] alone; the traversal [var.aws.alias] is not set. *)
Lemma alias_attribute_is_not_rendered :
  is_Some (hcltmpl.BlockVariables aliasedProvider !! "alias")
  ∧ appendRootProviderBlocks [] [aliasedProvider]
    = [Block "provider" ["aws"]
         [Attribute "region"
            (ExprTraversal
               [hcl.TraverseRoot "var"; hcl.TraverseAttr "aws";
                hcl.TraverseAttr "region"])]]
  ∧ Attribute "alias"
      (ExprTraversal
         [hcl.TraverseRoot "var"; hcl.TraverseAttr "aws";
          hcl.TraverseAttr "alias"])
    ∉ providerBody aliasedProvider.
Proof.
  split; [by eexists|]. split; [vm_compute; reflexivity|].
  assert (providerBody aliasedProvider
          = [Attribute "region"
               (ExprTraversal
                  [hcl.TraverseRoot "var"; hcl.TraverseAttr "aws";
                   hcl.TraverseAttr "region"])]) as ->
    by (vm_compute; reflexivity).
  by intros [=]%list_elem_of_singleton.
Qed.

Lemma filter_ascending (P : string → Prop) `{∀ x, Decision (P x)}
    (l : list string) :
  ascending l → ascending (filter P l).
Proof.
  unfold ascending. induction 1 as [|x l Hl IH Hx]; [constructor|].
  rewrite filter_cons. destruct (decide (P x)); [|done].
  constructor; [done|].
  apply Forall_forall. intros y [_ Hy]%list_elem_of_filter.
  rewrite Forall_forall in Hx. by apply Hx.
Qed.

Lemma elem_of_object_keys (fields : list (string * cty.Value)) (key : string) :
  key ∈ sortedKeys (subAttrsOf (cty.ObjectVal fields)) ↔ key ∈ fields.*1.
Proof.
  rewrite elem_of_sortedKeys. unfold subAttrsOf. simpl.
  rewrite lookup_fmap, fmap_is_Some.
  destruct (decide (key ∈ fields.*1)) as [Hin|Hout].
  - split; [done|]. intros _.
    destruct (list_to_map (M := gmap string cty.Value) fields !! key) eqn:E;
      [done|].
    by apply not_elem_of_list_to_map in E.
  - split; [|done]. intros [v Hv].
    by rewrite (not_elem_of_list_to_map_1 _ _ Hout) in Hv.
Qed.

Lemma specProviderItem_renders p attr :
  is_Some (hcltmpl.BlockVariables p !! attr) →
  rendersAttribute p attr (specProviderItem p attr).
Proof.
  intros [val Hval]. unfold rendersAttribute, specProviderItem, index.
  rewrite Hval. simpl.
  destruct val as [| | | | |fields]; try done.
  exists (sortedKeys (subAttrsOf (cty.ObjectVal fields))).
  split; [apply sortedKeys_ascending|].
  split; [apply elem_of_object_keys|done].
Qed.

Lemma specProviderBlock_renders p : rendersProvider p (specProviderBlock p).
Proof.
  exists (filter (λ attr, ¬ suppressed attr) (hcltmpl.SortedAttributes p)).
  eexists. split; [apply filter_ascending, SortedAttributes_ascending|].
  split; [|split; [|reflexivity]].
  - intros attr. rewrite list_elem_of_filter, elem_of_SortedAttributes.
    unfold suppressed. tauto.
  - apply Forall2_fmap_r, Forall_Forall2_diag, Forall_forall.
    intros attr [_ Hin]%list_elem_of_filter.
    by apply specProviderItem_renders, elem_of_SortedAttributes.
Qed.

(** The rendering in the words of the specification leaves no choice:
    a provider has one block that renders it. *)
Lemma ascending_unique (l1 l2 : list string) :
  ascending l1 → ascending l2 → (∀ x, x ∈ l1 ↔ x ∈ l2) → l1 = l2.
Proof.
  intros H1 H2 Hin.
  assert (∀ l, ascending l → NoDup l) as Hnd.
  { induction 1 as [|x l Hl IH Hx]; constructor; [|done].
    intros Hxl. rewrite Forall_forall in Hx. apply Hx in Hxl.
    by rewrite GoString.ltb_irrefl in Hxl. }
  apply (StronglySorted_unique_strong (λ a b, String.ltb a b = true));
    [|done|done|].
  - intros x1 x2 _ _ H12 H21. apply GoString.ltb_asym in H12. congruence.
  - apply NoDup_Permutation; auto.
Qed.

Lemma rendersAttribute_unique p attr item1 item2 :
  rendersAttribute p attr item1 → rendersAttribute p attr item2 →
  item1 = item2.
Proof.
  unfold rendersAttribute.
  destruct (hcltmpl.BlockVariables p !! attr) as [[| | | | |fields]|];
    try congruence; [|done].
  intros (k1 & Ha1 & Hk1 & ->) (k2 & Ha2 & Hk2 & ->).
  rewrite (ascending_unique k1 k2); [done..|].
  intros x. by rewrite Hk1, Hk2.
Qed.

Lemma rendersProvider_unique p block1 block2 :
  rendersProvider p block1 → rendersProvider p block2 → block1 = block2.
Proof.
  intros (a1 & i1 & Ha1 & Hm1 & Hf1 & ->) (a2 & i2 & Ha2 & Hm2 & Hf2 & ->).
  assert (a1 = a2) as <-.
  { apply ascending_unique; [done..|]. intros x. by rewrite Hm1, Hm2. }
  f_equal. clear Ha1 Hm1 Ha2 Hm2. revert i2 Hf2.
  induction Hf1 as [|a i l1 l2 Hai _ IH]; intros i2 Hf2.
  - by apply Forall2_nil_inv_l in Hf2.
  - apply Forall2_cons_inv_l in Hf2 as (j & l3 & Haj & Hl3 & ->).
    f_equal; [by eapply rendersAttribute_unique|by apply IH].
Qed.

(** C3, amended.  The provider blocks, for providers taken in the order
    given (the sorted order after [init]): each provider gives a block
    [provider] labelled with its name; its attributes other than
    [alias] and [auto_commit], which are skipped, are gone through in
    ascending name order; an attribute whose value is an object gives a
    nested block named after it with, for every key of the object in
    ascending order, the traversal [var.<provider>.<attribute>.<key>];
    any other attribute gives the traversal
    [var.<provider>.<attribute>]; a blank line stands between sibling
    provider blocks and none after the last. *)
Theorem provider_blocks_follow_algorithm
    (body : Body) (providers : list hcltmpl.NamedBlock) :
  ∃ blocks,
    Forall2 rendersProvider providers blocks
    ∧ appendRootProviderBlocks body providers = body ++ specSeparated blocks.
Proof.
  exists (map specProviderBlock providers). split.
  - apply Forall2_fmap_r, Forall_Forall2_diag, Forall_forall.
    intros p _. apply specProviderBlock_renders.
  - unfold appendRootProviderBlocks.
    by rewrite <- (providerLoop_spec providers 0 body).
Qed.

Definition nestedAliasProvider : hcltmpl.NamedBlock :=
  hcltmpl.mkNamedBlock "aws"
    {[ "assume_role" :=
         cty.ObjectVal [("alias", cty.StringVal "ops");
                        ("role_arn", cty.StringVal "arn")] ]}.

(** C2, as stated, fails: an object-typed attribute with a key [alias]
    gives a nested block in which the attribute [alias] is rendered. *)
Lemma nested_alias_is_rendered :
  appendRootProviderBlocks [] [nestedAliasProvider]
  = [Block "provider" ["aws"]
       [Block "assume_role" []
          [Attribute "alias"
             (ExprTraversal (var ["aws"; "assume_role"; "alias"]));
           Attribute "role_arn"
             (ExprTraversal (var ["aws"; "assume_role"; "role_arn"]))]]]
  ∧ "alias" ∈ concat (map deepAttributeNames
                        (appendRootProviderBlocks [] [nestedAliasProvider])).
Proof.
  assert (appendRootProviderBlocks [] [nestedAliasProvider]
          = [Block "provider" ["aws"]
               [Block "assume_role" []
                  [Attribute "alias"
                     (ExprTraversal (var ["aws"; "assume_role"; "alias"]));
                   Attribute "role_arn"
                     (ExprTraversal (var ["aws"; "assume_role"; "role_arn"]))]]])
    as E by (vm_compute; reflexivity).
  split; [exact E|]. rewrite E. simpl. by left.
Qed.

Lemma item_names p a :
  attributeNames [specProviderItem p a] ++ blockTypes [specProviderItem p a]
  = [a].
Proof. unfold specProviderItem. by destruct (cty.IsObjectType _). Qed.

Lemma elem_of_items_names p attrs attr :
  attr ∈ attributeNames (map (specProviderItem p) attrs)
           ++ blockTypes (map (specProviderItem p) attrs)
  ↔ attr ∈ attrs.
Proof.
  induction attrs as [|a attrs IH].
  - simpl. split; intros H; by apply elem_of_nil in H.
  - change (map (specProviderItem p) (a :: attrs))
      with ([specProviderItem p a] ++ map (specProviderItem p) attrs).
    rewrite attributeNames_app, blockTypes_app, elem_of_cons, <- IH.
    rewrite !elem_of_app.
    assert (attr ∈ attributeNames [specProviderItem p a]
            ∨ attr ∈ blockTypes [specProviderItem p a] ↔ attr = a) as Hitem.
    { by rewrite <- elem_of_app, item_names, list_elem_of_singleton. }
    tauto.
Qed.

(** C2, amended.  The block of a provider has, directly in its body,
    no attribute and no nested block named [alias] or [auto_commit],
    and it has one, an attribute or a nested block, for every other
    attribute of the NamedBlock. *)
Theorem provider_block_suppresses_control_attributes
    (body : Body) (p : hcltmpl.NamedBlock) :
  appendRootProviderBlocks body [p]
  = body ++ [Block "provider" [hcltmpl.Name p] (providerBody p)]
  ∧ ∀ attr,
      attr ∈ attributeNames (providerBody p) ++ blockTypes (providerBody p)
      ↔ is_Some (hcltmpl.BlockVariables p !! attr)
        ∧ attr ≠ "alias" ∧ attr ≠ "auto_commit".
Proof.
  split.
  - unfold appendRootProviderBlocks.
    change (Z.of_nat (length [p]) - 1)%Z
      with (0 + Z.of_nat (length [p]) - 1)%Z.
    rewrite providerLoop_spec. simpl.
    unfold specProviderBlock. by rewrite providerBody_spec.
  - intros attr. rewrite providerBody_spec, elem_of_items_names.
    rewrite list_elem_of_filter, elem_of_SortedAttributes.
    unfold suppressed. tauto.
Qed.

End ProviderClaims.

(** ** The module block *)

Module ModuleBlock.
Import hclwrite tftmpl BodyFacts SortFacts.

(** The module block in the words of the specification. *)
Definition specDescription (task : Task) : list Node :=
  if bool_decide (Description task = "") then []
  else [Comment ("# " +:+ Description task); Newline].

Definition specFixedAttributes (task : Task) : Body :=
  [Attribute "source" (ExprLiteral (cty.StringVal (Source task)))]
  ++ (if bool_decide (Version task = "") then []
      else [Attribute "version" (ExprLiteral (cty.StringVal (Version task)))])
  ++ [Attribute "services"
        (ExprTraversal [hcl.TraverseRoot "var"; hcl.TraverseAttr "services"])].

Definition specConditionAttribute (cond : option Condition) (mb : Body) : Body :=
  match cond with
  | Some c => if SourceIncludesVariable c then appendModuleAttribute c mb else mb
  | None => mb
  end.



Lemma length_pos_nonempty (s : string) : 0 < String.length s ↔ s ≠ "".
Proof. destruct s; simpl; split; (done || lia). Qed.

Lemma fixed_attributes task :
  SetAttributeTraversal "services" (var ["services"])
    (if bool_decide (0 < String.length (Version task))
     then SetAttributeValue "version" (cty.StringVal (Version task))
            (SetAttributeValue "source" (cty.StringVal (Source task)) [])
     else SetAttributeValue "source" (cty.StringVal (Source task)) [])
  = specFixedAttributes task.
Proof.
  unfold specFixedAttributes.
  destruct (decide (Version task = "")) as [E|E].
  - rewrite (bool_decide_false (0 < _)) by (rewrite length_pos_nonempty; tauto).
    by rewrite bool_decide_true.
  - rewrite (bool_decide_true (0 < _)) by (by apply length_pos_nonempty).
    by rewrite bool_decide_false.
Qed.

Lemma moduleBody_head task cond varNames :
  moduleBody task cond varNames
  = foldl (λ mb name, SetAttributeTraversal name (var [name]) mb)
      (specConditionAttribute cond (specFixedAttributes task)
       ++ (if bool_decide (varNames = []) then [] else [Newline]))
      varNames.
Proof.
  unfold moduleBody. rewrite fixed_attributes.
  fold (specConditionAttribute cond (specFixedAttributes task)).
  destruct varNames as [|n r].
  - simpl. by rewrite app_nil_r.
  - by rewrite bool_decide_true, bool_decide_false.
Qed.


Lemma appendRootModuleBlock_unfold body task cond varNames :
  appendRootModuleBlock body task cond varNames
  = body ++ specDescription task
    ++ [Block "module" [Name task] (moduleBody task cond varNames)].
Proof.
  unfold appendRootModuleBlock, specDescription, appendComment,
    AppendBlock, AppendNewline, AppendUnstructuredComment.
  destruct (decide (Description task = "")) as [E|E].
  - rewrite (bool_decide_false (_ ≠ _)) by (intros H; by apply H).
    by rewrite bool_decide_true.
  - rewrite (bool_decide_true (_ ≠ _)), bool_decide_false by done.
    by rewrite <- !app_assoc.
Qed.

(** The names of the attributes of a body after setting more. *)
Lemma elem_of_foldl_set (f : string → Expression) names b m :
  m ∈ attributeNames (foldl (λ b n, setAttribute n (f n) b) b names)
  ↔ m ∈ attributeNames b ∨ m ∈ names.
Proof.
  revert b. induction names as [|n names IH]; intros b; simpl.
  - rewrite elem_of_nil. tauto.
  - rewrite IH, elem_of_setAttribute, elem_of_cons. tauto.
Qed.

End ModuleBlock.

(** ** Strings *)

Module StringFacts.

Lemma append_cons (x : ascii) (a b : string) :
  String x a +:+ b = String x (a +:+ b).
Proof. reflexivity. Qed.

Lemma append_nil_l (a : string) : "" +:+ a = a.
Proof. reflexivity. Qed.

Lemma append_assoc (a b c : string) : (a +:+ b) +:+ c = a +:+ (b +:+ c).
Proof.
  induction a as [|x a IH]; [done|]. rewrite !append_cons. by rewrite IH.
Qed.

Lemma append_nil_r (a : string) : a +:+ "" = a.
Proof.
  induction a as [|x a IH]; [done|]. rewrite append_cons. by rewrite IH.
Qed.

Lemma length_append (a b : string) :
  String.length (a +:+ b) = String.length a + String.length b.
Proof.
  induction a as [|x a IH]; [done|]. rewrite append_cons. simpl.
  by rewrite IH.
Qed.

Lemma length_zero (a : string) : String.length a = 0 → a = "".
Proof. by destruct a. Qed.

(** Two ways of cutting one string: the heads are equal, or one is the
    other followed by the start of the other's tail. *)
Lemma append_split (a1 a2 r1 r2 : string) :
  a1 +:+ r1 = a2 +:+ r2 →
  (∃ x, a2 = a1 +:+ x ∧ r1 = x +:+ r2) ∨ (∃ x, a1 = a2 +:+ x ∧ r2 = x +:+ r1).
Proof.
  revert a2. induction a1 as [|c a1 IH]; intros a2 H.
  - left. by exists a2.
  - destruct a2 as [|c' a2].
    + right. by exists (String c a1).
    + rewrite !append_cons in H.
      injection H as -> H. destruct (IH _ H) as [[x [-> ->]]|[x [-> ->]]].
      * left. by exists x.
      * right. by exists x.
Qed.

End StringFacts.

(** ** Statements on the module block *)

Module ModuleClaims.
Import hclwrite tftmpl BodyFacts SortFacts ModuleBlock.











End ModuleClaims.

(** ** The terraform block *)

Module TerraformBlock.
Import hclwrite tftmpl BodyFacts SortFacts.

(** The content of the terraform block in the words of the
    specification: the version constraint, the required providers when
    there are any, and the backend block. *)
Definition specTerraformHead (requiredVersion : string)
    (providerInfo : gmap string cty.Value) : Body :=
  [Attribute "required_version" (ExprLiteral (cty.StringVal requiredVersion))]
  ++ (if bool_decide (size providerInfo = 0) then []
      else [Block "required_providers" []
              (map (λ pName, Attribute pName
                               (ExprLiteral (default cty.NullVal
                                               (providerInfo !! pName))))
                 (sortedKeys providerInfo))]).

Definition specBackendBlock (b : hcltmpl.NamedBlock) : Node :=
  Block "backend" [hcltmpl.Name b]
    (map (λ attr, Attribute attr
                    (ExprLiteral (index (hcltmpl.BlockVariables b) attr)))
       (hcltmpl.SortedAttributes b)).

Definition specBackend (backend : option hcltmpl.NamedBlock) : list Node :=
  match backend with
  | Some b => if bool_decide (hcltmpl.Name b = "") then [] else [specBackendBlock b]
  | None => []
  end.

Lemma backendBody_spec b :
  Block "backend" [hcltmpl.Name b] (backendBody b) = specBackendBlock b.
Proof.
  unfold specBackendBlock, backendBody, SetAttributeValue. f_equal.
  rewrite (foldl_setAttribute_fresh
             (λ attr, ExprLiteral (index (hcltmpl.BlockVariables b) attr)));
    [done| |].
  - apply (sortedKeys_NoDup (hcltmpl.BlockVariables b)).
  - intros n _. apply not_elem_of_nil.
Qed.

Lemma foldl_requiredProviders (providerInfo : gmap string cty.Value) names b :
  NoDup names →
  (∀ n, n ∈ names → is_Some (providerInfo !! n)) →
  (∀ n, n ∈ names → n ∉ attributeNames b) →
  foldl (λ rb pName,
           match providerInfo !! pName with
           | Some info => SetAttributeValue pName info rb
           | None => rb
           end) b names
  = b ++ map (λ pName, Attribute pName
                         (ExprLiteral (default cty.NullVal
                                         (providerInfo !! pName)))) names.
Proof.
  revert b. induction names as [|n names IH]; intros b Hnd Hkeys Hfresh.
  - simpl. by rewrite app_nil_r.
  - apply NoDup_cons in Hnd as [Hn Hnd]. cbn [foldl map].
    destruct (Hkeys n) as [info Hinfo]; [by left|]. rewrite Hinfo. simpl.
    unfold SetAttributeValue at 2.
    rewrite setAttribute_fresh by (apply Hfresh; by left).
    rewrite IH; [by rewrite <- app_assoc|done| |].
    + intros m Hm. apply Hkeys. by right.
    + intros m Hm. rewrite attributeNames_snoc_attr, elem_of_app.
      intros [H|H]; [by apply (Hfresh m); [right|]|].
      apply list_elem_of_singleton in H as ->. done.
Qed.

Lemma requiredProvidersBody_spec (providerInfo : gmap string cty.Value) :
  requiredProvidersBody providerInfo
  = map (λ pName, Attribute pName
                    (ExprLiteral (default cty.NullVal (providerInfo !! pName))))
      (sortedKeys providerInfo).
Proof.
  unfold requiredProvidersBody. rewrite foldl_requiredProviders; [done| | |].
  - apply sortedKeys_NoDup.
  - intros n. by rewrite elem_of_sortedKeys.
  - intros n _. apply not_elem_of_nil.
Qed.

Lemma terraformBody_spec requiredVersion backend providerInfo :
  terraformBody requiredVersion backend providerInfo
  = specTerraformHead requiredVersion providerInfo ++ specBackend backend.
Proof.
  unfold terraformBody, specTerraformHead, specBackend, AppendBlock.
  rewrite requiredProvidersBody_spec.
  destruct (decide (size providerInfo = 0)) as [E|E].
  - rewrite (bool_decide_false (_ ≠ _)) by (intros H; by apply H).
    rewrite (bool_decide_true (size _ = 0)) by done.
    destruct backend as [b|]; [|done].
    destruct (bool_decide (hcltmpl.Name b = "")); [done|].
    by rewrite backendBody_spec.
  - rewrite (bool_decide_true (_ ≠ _)) by done.
    rewrite (bool_decide_false (size _ = 0)) by done.
    destruct backend as [b|]; [|done].
    destruct (bool_decide (hcltmpl.Name b = "")); [done|].
    by rewrite backendBody_spec.
Qed.

Lemma specTerraformHead_no_backend requiredVersion providerInfo :
  "backend" ∉ blockTypes (specTerraformHead requiredVersion providerInfo).
Proof.
  unfold specTerraformHead.
  destruct (bool_decide (size providerInfo = 0)); simpl.
  - apply not_elem_of_nil.
  - by intros ?%list_elem_of_singleton.
Qed.

End TerraformBlock.

(** ** Statements on the backend block *)

Module BackendClaims.
Import hclwrite tftmpl BodyFacts SortFacts TerraformBlock.

(** A backend configured under the empty name. *)
Definition unnamedBackendInput : RootModuleInputData :=
  mkInput None (Some {[ "" := {[ "path" := cty.StringVal "state" ]} ]})
    [] ∅ [] (mkTask "" "web" "./module" "") ∅ None "" 0 false None.

(** C8, as stated, fails: a backend NamedBlock is set, its name is
    empty, and the terraform block has no backend block. *)
Lemma unnamed_backend_is_not_rendered :
  backend (init unnamedBackendInput)
  = Some (hcltmpl.mkNamedBlock "" {[ "path" := cty.StringVal "state" ]})
  ∧ appendRootTerraformBlock ">= 0.13" []
      (backend (init unnamedBackendInput))
      (ProviderInfo (init unnamedBackendInput))
    = [Block "terraform" []
         [Attribute "required_version"
            (ExprLiteral (cty.StringVal ">= 0.13"))]].
Proof. split; vm_compute; reflexivity. Qed.

(** C8, amended.  [init] wraps a supplied backend configuration into
    the NamedBlock and leaves it unset otherwise.  When a backend
    NamedBlock is set and its name is not empty, the terraform block
    ends with a nested block [backend] labelled with that name, whose
    attributes are those of the NamedBlock in ascending name order, as
    literal values; when no backend is set, or its name is empty, the
    terraform block has no backend block. *)
Theorem backend_block_rendering
    (requiredVersion : string) (d : RootModuleInputData) (body : Body) :
  backend (init d)
  = match Backend d with
    | Some cfg => Some (hcltmpl.NewNamedBlock cfg)
    | None => backend d
    end
  ∧ appendRootTerraformBlock requiredVersion body (backend (init d))
      (ProviderInfo (init d))
    = body ++ [Block "terraform" []
                 (specTerraformHead requiredVersion (ProviderInfo d)
                  ++ match backend (init d) with
                     | Some b =>
                         if bool_decide (hcltmpl.Name b = "") then []
                         else [specBackendBlock b]
                     | None => []
                     end)]
  ∧ ("backend" ∉ blockTypes (specTerraformHead requiredVersion (ProviderInfo d)))
  ∧ (∀ b, ascending (hcltmpl.SortedAttributes b)).
Proof.
  split; [done|]. split; [|split].
  - unfold appendRootTerraformBlock, AppendBlock.
    by rewrite terraformBody_spec.
  - apply specTerraformHead_no_backend.
  - intros b. apply (sortedKeys_ascending (hcltmpl.BlockVariables b)).
Qed.

End BackendClaims.

(** ** Facts on the bytes of a document *)

Module BytesFacts.
Import hclwrite hclbytes StringFacts.

Lemma escapeChar_same_head (c d : ascii) (x y : string) :
  escapeChar c (String d x) = escapeChar c (String d y).
Proof. reflexivity. Qed.

Lemma escapeChar_before_newline (c : ascii) (r : string) :
  escapeChar c (nl +:+ r) = escapeChar c "".
Proof. reflexivity. Qed.

(** The escape of a literal is the escape of what stands before a
    newline followed by the escape of the rest: no escape reaches over a
    newline. *)
Lemma escape_split_at_newline (a r : string) :
  escapeQuotedStringLit (a +:+ nl +:+ r)
  = escapeQuotedStringLit a +:+ escapeQuotedStringLit (nl +:+ r).
Proof.
  induction a as [|c a IH]; [done|].
  rewrite append_cons. cbn [escapeQuotedStringLit]. rewrite IH.
  rewrite append_assoc. f_equal.
  destruct a as [|d a]; [apply escapeChar_before_newline|].
  rewrite append_cons. apply escapeChar_same_head.
Qed.

Lemma concatStrings_app (l1 l2 : list string) :
  concatStrings (l1 ++ l2) = concatStrings l1 +:+ concatStrings l2.
Proof.
  induction l1 as [|s l1 IH]; simpl; [done|].
  by rewrite IH, append_assoc.
Qed.

Lemma Bytes_app (b1 b2 : Body) : Bytes (b1 ++ b2) = Bytes b1 +:+ Bytes b2.
Proof. unfold Bytes. by rewrite map_app, concatStrings_app. Qed.

(** The length of the bytes of a block with one label, by the label. *)
Lemma length_block_label (typeName label : string) (body : Body) :
  String.length (Bytes [Block typeName [label] body])
  = String.length (Bytes [Block typeName [""] body])
    + String.length (escapeQuotedStringLit label).
Proof.
  unfold Bytes. simpl. rewrite !length_append.
  unfold labelsBytes, quoted. simpl.
  rewrite ?append_cons, ?append_nil_l. simpl.
  rewrite ?length_append. simpl. lia.
Qed.

End BytesFacts.

(** ** The file main.tf *)

Module MainFile.
Import hclwrite tftmpl BodyFacts ModuleBlock StringFacts BytesFacts.

Definition setTaskName (name : string) (d : RootModuleInputData)
    : RootModuleInputData :=
  mkInput (TerraformVersion d) (Backend d) (Providers d) (ProviderInfo d)
    (Services d)
    (mkTask (Description (InputTask d)) name (Source (InputTask d))
       (Version (InputTask d)))
    (Variables d) (InputCondition d) (Path d) (FilePerms d) (skipOverride d)
    (backend d).

(** What the first write of [writePreamble] leaves in the file. *)
Definition rootPreambleWritten (w : io.Writer) : string :=
  match io.faults w with
  | true :: _ => ""
  | _ => RootPreamble
  end.

Lemma newMainTF_written requiredVersion w filename d w' logged :
  newMainTF requiredVersion w filename d = (w', logged, None) →
  io.written w'
  = io.written w +:+ rootPreambleWritten w
    +:+ TaskPreamble (Name (InputTask d)) (Description (InputTask d))
    +:+ hclbytes.Bytes (mainDocument requiredVersion d).
Proof.
  unfold newMainTF, writePreamble, io.Write, rootPreambleWritten.
  destruct w as [out fs]. simpl.
  destruct fs as [|[] [|[] [|[] fs]]]; simpl; intros [= <- _]; simpl;
    by rewrite ?append_assoc, ?append_nil_l.
Qed.

Lemma newMainTF_no_faults requiredVersion w filename d :
  io.faults w = [] →
  newMainTF requiredVersion w filename d
  = (io.mkWriter
       (io.written w +:+ RootPreamble
        +:+ TaskPreamble (Name (InputTask d)) (Description (InputTask d))
        +:+ hclbytes.Bytes (mainDocument requiredVersion d)) [],
     [], None).
Proof.
  unfold newMainTF, writePreamble, io.Write.
  destruct w as [out fs]. simpl. intros ->. simpl.
  by rewrite ?append_assoc.
Qed.

Lemma mainDocument_module requiredVersion d :
  ∃ before,
    ∀ name,
      mainDocument requiredVersion (setTaskName name d)
      = before ++ [Block "module" [name]
                     (moduleBody (InputTask d) (InputCondition d)
                        (hcltmpl.Keys (Variables d)))].
Proof.
  exists (AppendNewline
            (appendRootProviderBlocks
               (AppendNewline
                  (appendRootTerraformBlock requiredVersion
                     (AppendNewline NewEmptyFile) (backend d) (ProviderInfo d)))
               (Providers d))
          ++ specDescription (InputTask d)).
  intros name. unfold mainDocument.
  rewrite appendRootModuleBlock_unfold. by rewrite app_assoc.
Qed.

Lemma length_mainDocument requiredVersion d :
  ∃ k, ∀ name,
    String.length (hclbytes.Bytes (mainDocument requiredVersion (setTaskName name d)))
    = k + String.length (hclbytes.escapeQuotedStringLit name).
Proof.
  destruct (mainDocument_module requiredVersion d) as [before H].
  eexists. intros name.
  rewrite H, Bytes_app, length_append, length_block_label.
  rewrite Nat.add_assoc. done.
Qed.

End MainFile.

(** ** Statements on the file main.tf *)

Module MainFileClaims.
Import hclwrite tftmpl BodyFacts ModuleBlock StringFacts BytesFacts MainFile.

(** The task-scoped preamble in the spec's words: the task's name and
    its description, each on a comment line of its own. *)
Definition specTaskPreamble (name description : string) : string :=
  "# Task: " +:+ name +:+ hclbytes.nl +:+
  "# Description: " +:+ description +:+ hclbytes.nl.

(** A name is read back from the task preamble: two preambles with one
    description are equal only for equal names. *)
Lemma specTaskPreamble_inj (n1 n2 description : string) :
  specTaskPreamble n1 description = specTaskPreamble n2 description → n1 = n2.
Proof.
  unfold specTaskPreamble. intros Heq.
  rewrite ?append_assoc in Heq. apply String.app_inj in Heq.
  apply append_split in Heq as [[x [Hn Hr]]|[x [Hn Hr]]];
    apply (f_equal String.length) in Hr; rewrite !length_append in Hr;
    assert (String.length x = 0) as Hx by lia;
    apply length_zero in Hx; subst x; by rewrite append_nil_r in Hn.
Qed.

(** The first line of the module block's part of the file is longer for
    a name that continues another one past a newline. *)
Lemma continued_name_has_longer_label (n x : string) :
  String.length (hclbytes.escapeQuotedStringLit n)
  ≤ String.length (hclbytes.escapeQuotedStringLit (n +:+ hclbytes.nl +:+ x)).
Proof. rewrite escape_split_at_newline, length_append. lia. Qed.

(** Of two files that hold a task preamble and then a document whose
    length grows with the escaped name, equal contents give equal
    names: the name ends at the first newline after it in the preamble,
    so a longer name would continue past a newline and make the
    document longer. *)
Lemma names_of_equal_contents (n1 n2 description B1 B2 : string) (k : nat) :
  String.length B1 = k + String.length (hclbytes.escapeQuotedStringLit n1) →
  String.length B2 = k + String.length (hclbytes.escapeQuotedStringLit n2) →
  specTaskPreamble n1 description +:+ B1
  = specTaskPreamble n2 description +:+ B2 →
  n1 = n2.
Proof.
  intros Hk1 Hk2 Heq. unfold specTaskPreamble in Heq.
  rewrite ?append_assoc in Heq. apply String.app_inj in Heq.
  set (Z1 := "# Description: " +:+ description +:+ hclbytes.nl +:+ B1) in *.
  set (Z2 := "# Description: " +:+ description +:+ hclbytes.nl +:+ B2) in *.
  assert (String.length Z1 + String.length B2
          = String.length Z2 + String.length B1) as HZ.
  { unfold Z1, Z2. rewrite !length_append. lia. }
  clearbody Z1 Z2.
  apply append_split in Heq as [[x [Hn Hr]]|[x [Hn Hr]]].
  - destruct x as [|c x]; [by rewrite append_nil_r in Hn|].
    change (hclbytes.nl +:+ Z1)
      with (String (Ascii.ascii_of_nat 10) Z1) in Hr.
    rewrite append_cons in Hr. injection Hr as <- Hr.
    change (String (Ascii.ascii_of_nat 10) x) with (hclbytes.nl +:+ x) in Hn.
    pose proof (continued_name_has_longer_label n1 x) as Hle.
    rewrite <- Hn in Hle.
    apply (f_equal String.length) in Hr.
    rewrite !length_append in Hr. simpl in Hr. lia.
  - destruct x as [|c x]; [by rewrite append_nil_r in Hn|].
    change (hclbytes.nl +:+ Z2)
      with (String (Ascii.ascii_of_nat 10) Z2) in Hr.
    rewrite append_cons in Hr. injection Hr as <- Hr.
    change (String (Ascii.ascii_of_nat 10) x) with (hclbytes.nl +:+ x) in Hn.
    pose proof (continued_name_has_longer_label n2 x) as Hle.
    rewrite <- Hn in Hle.
    apply (f_equal String.length) in Hr.
    rewrite !length_append in Hr. simpl in Hr. lia.
Qed.

(** C6.  Two inputs that differ only in the task name give, to the
    same writer, different contents of main.tf whenever both renderings
    return without error.  The cause is the one the claim gives: each
    file is what the writer held, what the write of the warning
    preamble left (the whole warning preamble when that write did not
    fail), the task preamble with the task's name and description, and
    the document; and the two task preambles differ. *)
Theorem distinct_task_names_give_distinct_main_tf
    (requiredVersion : string) (d : RootModuleInputData) (n1 n2 : string)
    (w : io.Writer) (filename : string) :
  n1 ≠ n2 →
  (newMainTF requiredVersion w filename (setTaskName n1 d)).2 = None →
  (newMainTF requiredVersion w filename (setTaskName n2 d)).2 = None →
  io.written (newMainTF requiredVersion w filename (setTaskName n1 d)).1.1
  ≠ io.written (newMainTF requiredVersion w filename (setTaskName n2 d)).1.1
  ∧ specTaskPreamble n1 (Description (InputTask d))
    ≠ specTaskPreamble n2 (Description (InputTask d))
  ∧ ∃ warning,
      (head (io.faults w) ≠ Some true → warning = RootPreamble)
      ∧ io.written
          (newMainTF requiredVersion w filename (setTaskName n1 d)).1.1
        = io.written w +:+ warning
          +:+ specTaskPreamble n1 (Description (InputTask d))
          +:+ hclbytes.Bytes (mainDocument requiredVersion (setTaskName n1 d))
      ∧ io.written
          (newMainTF requiredVersion w filename (setTaskName n2 d)).1.1
        = io.written w +:+ warning
          +:+ specTaskPreamble n2 (Description (InputTask d))
          +:+ hclbytes.Bytes (mainDocument requiredVersion (setTaskName n2 d)).
Proof.
  intros Hne H1 H2.
  destruct (newMainTF requiredVersion w filename (setTaskName n1 d))
    as [[w1 l1] e1] eqn:E1.
  destruct (newMainTF requiredVersion w filename (setTaskName n2 d))
    as [[w2 l2] e2] eqn:E2.
  simpl in *. subst e1 e2.
  rewrite (newMainTF_written _ _ _ _ _ _ E1), (newMainTF_written _ _ _ _ _ _ E2).
  destruct (length_mainDocument requiredVersion d) as [k Hk].
  pose proof (Hk n1) as Hk1. pose proof (Hk n2) as Hk2.
  set (B1 := hclbytes.Bytes (mainDocument requiredVersion (setTaskName n1 d))) in *.
  set (B2 := hclbytes.Bytes (mainDocument requiredVersion (setTaskName n2 d))) in *.
  simpl. change TaskPreamble with specTaskPreamble.
  split; [|split].
  - intros Heq. do 2 apply String.app_inj in Heq.
    by apply Hne, (names_of_equal_contents _ _ _ _ _ _ Hk1 Hk2 Heq).
  - intros Heq. by apply Hne, (specTaskPreamble_inj _ _ _ Heq).
  - exists (rootPreambleWritten w). split; [|done].
    unfold rootPreambleWritten. by destruct (io.faults w) as [|[] ?].
Qed.

Definition sampleInput : RootModuleInputData :=
  mkInput None
    (Some {[ "consul" := {[ "address" := cty.StringVal "localhost:8500" ]} ]})
    [hcltmpl.mkNamedBlock "local" {[ "path" := cty.StringVal "/tmp" ]}]
    ∅ [] (mkTask "routes" "api" "./module" "")
    {[ "region" := cty.StringVal "us-east-1" ]} None "out" 420 false None.

Lemma distinct_task_names_give_distinct_main_tf_witness :
  io.written (newMainTF ">= 0.13" (io.mkWriter "" []) "main.tf"
                (setTaskName "api" (init sampleInput))).1.1
  ≠ io.written (newMainTF ">= 0.13" (io.mkWriter "" []) "main.tf"
                  (setTaskName "web" (init sampleInput))).1.1
  ∧ specTaskPreamble "api" (Description (InputTask (init sampleInput)))
    ≠ specTaskPreamble "web" (Description (InputTask (init sampleInput)))
  ∧ ∃ warning,
      (head (io.faults (io.mkWriter "" [])) ≠ Some true →
       warning = RootPreamble)
      ∧ io.written
          (newMainTF ">= 0.13" (io.mkWriter "" []) "main.tf"
             (setTaskName "api" (init sampleInput))).1.1
        = io.written (io.mkWriter "" []) +:+ warning
          +:+ specTaskPreamble "api"
                (Description (InputTask (init sampleInput)))
          +:+ hclbytes.Bytes
                (mainDocument ">= 0.13" (setTaskName "api" (init sampleInput)))
      ∧ io.written
          (newMainTF ">= 0.13" (io.mkWriter "" []) "main.tf"
             (setTaskName "web" (init sampleInput))).1.1
        = io.written (io.mkWriter "" []) +:+ warning
          +:+ specTaskPreamble "web"
                (Description (InputTask (init sampleInput)))
          +:+ hclbytes.Bytes
                (mainDocument ">= 0.13" (setTaskName "web" (init sampleInput))).
Proof.
  apply (distinct_task_names_give_distinct_main_tf ">= 0.13"
           (init sampleInput) "api" "web" (io.mkWriter "" []) "main.tf").
  - discriminate.
  - vm_compute. reflexivity.
  - vm_compute. reflexivity.
Defined.

(** C10.  With a nil condition, main.tf is rendered to a writer that
    takes every write without an error; the attributes of the module
    block are source, version, services and the operator variables,
    and the block is the one that a condition reporting no variable in
    the source gives: no method of the condition is needed. *)
Theorem nil_condition_renders
    (requiredVersion : string) (d : RootModuleInputData) (w : io.Writer)
    (filename : string) :
  InputCondition d = None →
  io.faults w = [] →
  newMainTF requiredVersion w filename d
  = (io.mkWriter
       (io.written w +:+ RootPreamble
        +:+ TaskPreamble (Name (InputTask d)) (Description (InputTask d))
        +:+ hclbytes.Bytes (mainDocument requiredVersion d)) [],
     [], None)
  ∧ (∀ m, m ∈ attributeNames
                (moduleBody (InputTask d) (InputCondition d)
                   (hcltmpl.Keys (Variables d))) →
          m ∈ ["source"; "version"; "services"] ++ hcltmpl.Keys (Variables d))
  ∧ (∀ c, SourceIncludesVariable c = false →
          moduleBody (InputTask d) (InputCondition d) (hcltmpl.Keys (Variables d))
          = moduleBody (InputTask d) (Some c) (hcltmpl.Keys (Variables d))).
Proof.
  intros Hnil Hw. split; [by apply newMainTF_no_faults|]. rewrite Hnil. split.
  - intros m. rewrite moduleBody_head. unfold SetAttributeTraversal.
    rewrite (elem_of_foldl_set (λ name, ExprTraversal (var [name]))).
    rewrite attributeNames_app, !elem_of_app. simpl.
    unfold specFixedAttributes.
    intros [[H|H]|H]; [left|left|by right].
    + destruct (bool_decide (Version (InputTask d) = "")); simpl in H;
        rewrite ?elem_of_cons in *; tauto.
    + destruct (bool_decide (hcltmpl.Keys (Variables d) = [])); simpl in H;
        by apply elem_of_nil in H.
  - intros c Hc. unfold moduleBody. by rewrite Hc.
Qed.

Lemma nil_condition_renders_witness :
  (newMainTF ">= 0.13" (io.mkWriter "" []) "main.tf" (init sampleInput)).2
  = None.
Proof.
  rewrite (proj1 (nil_condition_renders ">= 0.13" (init sampleInput)
                    (io.mkWriter "" []) "main.tf" eq_refl eq_refl)).
  reflexivity.
Defined.

End MainFileClaims.

(** ** One turn of the loop of [initModule] *)

Module Bundle.
Import tftmpl StringFacts.

Definition skipsModuleVars (input : RootModuleInputData) (filename : string)
    : bool :=
  bool_decide (filename = ModuleVarsFilename)
  && bool_decide (size (Variables input) = 0).

(** The events that concern the file [filename] at [filePath]. *)
Definition concerns (filePath filename : string) (e : Event) : Prop :=
  match e with
  | Log _ => True
  | SysCreate q | SysChmod q _ | SysSync q => q = filePath
  | CallFileFunc f => f = filename
  end.

Lemma filepath_Join_inj dir : Inj eq eq (filepath_Join dir).
Proof.
  intros a b. unfold filepath_Join. case_bool_decide; [done|].
  intros Heq. apply String.app_inj in Heq. by apply String.app_inj in Heq.
Qed.

Lemma fileExists_present os name f :
  files os !! name = Some f → fileExists os name = true.
Proof.
  intros H. unfold fileExists. case_bool_decide; [done|].
  by rewrite bool_decide_true, ?H by (by rewrite H).
Qed.

(** The three ways a turn can go: the module variables file without
    variables, an existing file under skip-existing, or the creation
    of the file, which touches this file only. *)
Lemma initFile_cases input filename (newFileFunc : tfFileFunc) os :
  let filePath := filepath_Join (Path input) filename in
  (skipsModuleVars input filename = true
   ∧ initFile input filename newFileFunc os = (os, None))
  ∨ (skipsModuleVars input filename = false
     ∧ fileExists os filePath && skipOverride input = true
     ∧ initFile input filename newFileFunc os
       = (record (Log (DebugSkip filename (Name (InputTask input)))) os, None))
  ∨ (skipsModuleVars input filename = false
     ∧ fileExists os filePath && skipOverride input = false
     ∧ ∃ fs new err,
         initFile input filename newFileFunc os
         = (mkOS fs (statErrors os) (createErrors os) (chmodErrors os)
              (writeFaults os) (umask os) (events os ++ new), err)
         ∧ (∀ q, q ≠ filePath → fs !! q = files os !! q)
         ∧ Forall (concerns filePath filename) new
         ∧ (err = None → SysCreate filePath ∈ new ∧ is_Some (fs !! filePath))).
Proof.
  intros filePath. unfold initFile. fold (skipsModuleVars input filename).
  fold filePath.
  destruct (skipsModuleVars input filename); [by left|right].
  destruct (fileExists os filePath && skipOverride input) eqn:Hskip;
    [by left|right].
  split; [done|]. split; [done|].
  set (os0 := record _ (if fileExists os filePath then _ else _)).
  assert (∃ pre, events os0 = events os ++ pre ∧ Forall (concerns filePath filename) pre
                 ∧ files os0 = files os ∧ statErrors os0 = statErrors os
                 ∧ createErrors os0 = createErrors os
                 ∧ chmodErrors os0 = chmodErrors os
                 ∧ writeFaults os0 = writeFaults os ∧ umask os0 = umask os)
    as (pre & Hev & Hpre & Hfs & Hst & Hcr & Hch & Hwf & Hum).
  { unfold os0. destruct (fileExists os filePath); simpl.
    - eexists [_; _]. rewrite <- app_assoc. simpl.
      split; [done|]. split; [by repeat constructor|done].
    - eexists [_]. split; [done|]. split; [by repeat constructor|done]. }
  clearbody os0.
  unfold os_Create. case_bool_decide as Hc.
  { exists (files os), (pre ++ [Log (ErrCreateFile filename (Name (InputTask input))
                                       (io.ErrCreate filePath))]), (Some (io.ErrCreate filePath)).
    unfold record, withEvents. simpl.
    rewrite Hev, Hfs, Hst, Hcr, Hch, Hwf, Hum, <- app_assoc.
    split; [done|]. split; [done|]. split; [|done].
    apply Forall_app. split; [done|]. by repeat constructor. }
  unfold file_Chmod, record, withEvents, withFiles.
  cbn [createErrors chmodErrors files statErrors writeFaults umask events].
  case_bool_decide as Hm.
  { eexists _, (pre ++ [SysCreate filePath;
                        Log (ErrChangePerms filename (Name (InputTask input))
                               (io.ErrChmod filePath))]), _.
    cbn [createErrors chmodErrors files statErrors writeFaults umask events].
    rewrite Hev, Hfs, Hst, Hcr, Hch, Hwf, Hum, <- !app_assoc.
    split; [done|]. split; [|split; [|done]].
    - intros q Hq. by rewrite lookup_insert_ne.
    - apply Forall_app. split; [done|]. by repeat constructor. }
  unfold callFileFunc, record, withEvents, withFiles.
  cbn [createErrors chmodErrors files statErrors writeFaults umask events].
  destruct (newFileFunc _ filename input) as [[w logged] err].
  rewrite Hev, Hfs, Hst, Hcr, Hch, Hwf, Hum.
  assert (Forall (concerns filePath filename)
            (pre ++ [SysCreate filePath] ++ [SysChmod filePath (FilePerms input)]
             ++ CallFileFunc filename :: map Log logged)) as Hall.
  { apply Forall_app. split; [done|].
    repeat (constructor; [done|]). by apply Forall_fmap, Forall_true. }
  destruct err as [e|];
    cbn [createErrors chmodErrors files statErrors writeFaults umask events];
    rewrite <- !app_assoc.
  - eexists _, _, (Some e). split; [reflexivity|].
    split; [|split; [|done]].
    + intros q Hq. by rewrite !lookup_alter_ne, lookup_insert_ne.
    + rewrite !app_assoc. apply Forall_app. split; [|by repeat constructor].
      by rewrite <- !app_assoc.
  - eexists _, _, None. split; [reflexivity|].
    split; [|split].
    + intros q Hq. by rewrite !lookup_alter_ne, lookup_insert_ne.
    + rewrite !app_assoc. apply Forall_app. split; [|by repeat constructor].
      by rewrite <- !app_assoc.
    + intros _. split.
      * rewrite !elem_of_app. right. left. by apply list_elem_of_singleton.
      * rewrite !lookup_alter_eq, lookup_insert_eq. by eexists.
Qed.

Lemma fileExists_frame os os' q :
  statErrors os' = statErrors os → files os' !! q = files os !! q →
  fileExists os' q = fileExists os q.
Proof. unfold fileExists. by intros -> ->. Qed.

(** The events that leave the file [filename] at [filePath] alone. *)
Definition untouched (filePath filename : string) (e : Event) : Prop :=
  match e with
  | Log _ => True
  | SysCreate q | SysChmod q _ | SysSync q => q ≠ filePath
  | CallFileFunc f => f ≠ filename
  end.

Lemma concerns_untouched p fn p' fn' new :
  p' ≠ p → fn' ≠ fn →
  Forall (concerns p' fn') new → Forall (untouched p fn) new.
Proof.
  intros Hp Hf Hall. eapply Forall_impl; [exact Hall|].
  intros [] H; simpl in *; by subst.
Qed.

(** *** Skip-existing mode *)

Section SkipExisting.
Context (input : RootModuleInputData) (filename : string) (f : File).
Hypothesis Hskip : skipOverride input = true.

Let filePath := filepath_Join (Path input) filename.

Lemma initFile_skip fn (g : tfFileFunc) os :
  files os !! filePath = Some f →
  ∃ new,
    events (initFile input fn g os).1 = events os ++ new
    ∧ Forall (untouched filePath filename) new
    ∧ files (initFile input fn g os).1 !! filePath = Some f.
Proof.
  intros Hf.
  destruct (initFile_cases input fn g os)
    as [[_ ->]|[(_ & _ & ->)|(_ & Hex & fs & new & err & -> & Hfs & Hnew & _)]].
  - exists []. by rewrite app_nil_r.
  - eexists [_]. split; [done|]. split; [by repeat constructor|done].
  - rewrite Hskip, andb_true_r in Hex.
    assert (filepath_Join (Path input) fn ≠ filePath) as Hp.
    { intros E. rewrite E in Hex.
      by rewrite (fileExists_present _ _ _ Hf) in Hex. }
    assert (fn ≠ filename) as Hn by (by intros ->).
    exists new. simpl. split; [done|]. split.
    + by apply (concerns_untouched _ _ (filepath_Join (Path input) fn) fn).
    + rewrite Hfs; [done|]. by intros E.
Qed.

Lemma initModule_skip visit os :
  files os !! filePath = Some f →
  ∃ new,
    events (initModule input visit os).1 = events os ++ new
    ∧ Forall (untouched filePath filename) new
    ∧ files (initModule input visit os).1 !! filePath = Some f.
Proof.
  revert os. induction visit as [|[fn g] rest IH]; intros os Hf.
  - exists []. simpl. by rewrite app_nil_r.
  - destruct (initFile_skip fn g os Hf) as (new1 & Hev1 & Hnew1 & Hf1).
    cbn [initModule].
    destruct (initFile input fn g os) as [os1 [e|]]; simpl in *.
    + by exists new1.
    + destruct (IH os1 Hf1) as (new2 & Hev2 & Hnew2 & Hf2).
      exists (new1 ++ new2). rewrite Hev2, Hev1, <- app_assoc.
      split; [done|]. split; [by apply Forall_app|done].
Qed.

Lemma initFile_skip_no_error (g : tfFileFunc) os :
  files os !! filePath = Some f →
  (initFile input filename g os).2 = None.
Proof.
  intros Hf.
  destruct (initFile_cases input filename g os)
    as [[_ ->]|[(_ & _ & ->)|(_ & Hex & _)]]; [done..|].
  fold filePath in Hex.
  by rewrite (fileExists_present _ _ _ Hf), Hskip in Hex.
Qed.
End SkipExisting.

End Bundle.

(** ** Statements on skip-existing mode *)

Module SkipClaims.
Import tftmpl Bundle.

(** C9.  With skip-existing mode on, a destination file that exists
    before the render keeps its content and its permission bits; the
    render creates, changes and syncs no file at its path and calls no
    file function for it; and its turn of the loop returns no error. *)
Theorem skip_existing_leaves_file_untouched
    (visit : list (string * tfFileFunc)) (input : RootModuleInputData)
    (os : OS) (filename : string) (f : File) :
  skipOverride input = true →
  files os !! filepath_Join (Path input) filename = Some f →
  files (InitRootModule visit input os).1
    !! filepath_Join (Path input) filename = Some f
  ∧ (∃ new,
       events (InitRootModule visit input os).1 = events os ++ new
       ∧ Forall (untouched (filepath_Join (Path input) filename) filename) new)
  ∧ (∀ (g : tfFileFunc) os1,
       files os1 !! filepath_Join (Path input) filename = Some f →
       (initFile (init input) filename g os1).2 = None).
Proof.
  intros Hskip Hf. unfold InitRootModule.
  destruct (initModule_skip (init input) filename f Hskip visit os Hf)
    as (new & Hev & Hnew & Hfile).
  split; [exact Hfile|]. split; [by exists new|].
  intros g os1 Hf1. by apply (initFile_skip_no_error (init input) filename f).
Qed.

Definition noContent : tfFileFunc := λ w _ _, (w, [], None).

Definition sentinel : File := mkFile "sentinel" 384.

Definition skippingInput : RootModuleInputData :=
  mkInput None None [] ∅ [] (mkTask "" "web" "./module" "") ∅ None "out" 420
    true None.

Definition diskWithMain : OS :=
  mkOS {[ "out/main.tf" := sentinel ]} ∅ ∅ ∅ ∅ 18 [].

Lemma skip_existing_leaves_file_untouched_witness :
  files (InitRootModule
           (fileFuncs ">= 0.13" noContent noContent noContent noContent)
           skippingInput diskWithMain).1
    !! filepath_Join (Path skippingInput) "main.tf" = Some sentinel.
Proof.
  apply (skip_existing_leaves_file_untouched
           (fileFuncs ">= 0.13" noContent noContent noContent noContent)
           skippingInput diskWithMain "main.tf" sentinel).
  - reflexivity.
  - vm_compute. reflexivity.
Defined.

End SkipClaims.

(** ** The files a render creates *)

Module Created.
Import tftmpl Bundle.

Lemma initFile_created input fn (g : tfFileFunc) os os1 :
  initFile input fn g os = (os1, None) →
  statErrors os1 = statErrors os
  ∧ (∀ q, q ≠ filepath_Join (Path input) fn → files os1 !! q = files os !! q)
  ∧ ∃ new,
      events os1 = events os ++ new
      ∧ ∀ q, SysCreate q ∈ new
             ↔ q = filepath_Join (Path input) fn
               ∧ skipsModuleVars input fn = false
               ∧ fileExists os (filepath_Join (Path input) fn)
                 && skipOverride input = false.
Proof.
  intros Hrun.
  destruct (initFile_cases input fn g os)
    as [[Hmv E]|[(Hmv & Hex & E)|(Hmv & Hex & fs & new & err & E & Hfs & Hnew & Hok)]];
    rewrite E in Hrun.
  - injection Hrun as <-.
    split; [done|]. split; [done|]. exists []. rewrite app_nil_r.
    split; [done|]. intros q. rewrite elem_of_nil, Hmv.
    split; [done|by intros (_ & ? & _)].
  - injection Hrun as <-.
    split; [done|]. split; [done|]. eexists [_]. split; [done|].
    intros q. rewrite list_elem_of_singleton, Hex.
    split; [done|by intros (_ & _ & ?)].
  - injection Hrun as <- Herr.
    simpl. split; [done|]. split; [done|]. exists new. split; [done|].
    destruct (Hok Herr) as [Hin _]. intros q. split.
    + intros Hq. rewrite Forall_forall in Hnew. by apply Hnew in Hq as ->.
    + by intros (-> & _ & _).
Qed.

Lemma initModule_created input visit os os' :
  NoDup visit.*1 →
  initModule input visit os = (os', None) →
  ∃ new,
    events os' = events os ++ new
    ∧ ∀ fn, SysCreate (filepath_Join (Path input) fn) ∈ new
            ↔ fn ∈ visit.*1
              ∧ skipsModuleVars input fn = false
              ∧ fileExists os (filepath_Join (Path input) fn)
                && skipOverride input = false.
Proof.
  revert os. induction visit as [|[f0 g] rest IH]; intros os Hnd Hrun.
  - injection Hrun as <-. exists []. rewrite app_nil_r. split; [done|].
    intros fn. simpl. rewrite !elem_of_nil.
    split; [done|by intros [? _]].
  - rewrite fmap_cons in Hnd. apply NoDup_cons in Hnd as [Hf0 Hnd].
    cbn [initModule] in Hrun.
    destruct (initFile input f0 g os) as [os1 [e|]] eqn:E1; [done|].
    destruct (initFile_created _ _ _ _ _ E1) as (Hst & Hfs & new1 & Hev1 & Hnew1).
    destruct (IH os1 Hnd Hrun) as (new2 & Hev2 & Hnew2).
    exists (new1 ++ new2). rewrite Hev2, Hev1, <- app_assoc. split; [done|].
    intros fn. rewrite elem_of_app, Hnew1, Hnew2, fmap_cons, elem_of_cons.
    simpl. split.
    + intros [(Hp & Hmv & Hex)|(Hin & Hmv & Hex)].
      * apply filepath_Join_inj in Hp as ->. by auto.
      * assert (fn ≠ f0) as Hne by (by intros ->).
        rewrite (fileExists_frame os os1) in Hex; [by auto|done|].
        apply Hfs. by intros ?%filepath_Join_inj.
    + intros ([->|Hin] & Hmv & Hex); [by left|right].
      assert (fn ≠ f0) as Hne by (by intros ->).
      rewrite (fileExists_frame os os1); [done|done|].
      apply Hfs. by intros ?%filepath_Join_inj.
Qed.

End Created.

(** ** Statements on the files of the bundle *)

Module FileSetClaims.
Import tftmpl Bundle Created.

(** C5, as stated, fails: with skip-existing mode on and main.tf on
    disk, the render returns no error and main.tf is not written. *)
Lemma existing_main_tf_is_not_emitted :
  let r := InitRootModule
             (fileFuncs ">= 0.13" SkipClaims.noContent SkipClaims.noContent
                SkipClaims.noContent SkipClaims.noContent)
             SkipClaims.skippingInput SkipClaims.diskWithMain in
  r.2 = None
  ∧ (SysCreate "out/main.tf" ∉ events r.1)
  ∧ (CallFileFunc "main.tf" ∉ events r.1)
  ∧ files r.1 !! "out/main.tf" = Some SkipClaims.sentinel.
Proof.
  assert (∀ e (l : list Event), bool_decide (e ∈ l) = false → e ∉ l) as Hdec.
  { intros e l H Hin. by rewrite bool_decide_true in H. }
  cbv zeta. split; [vm_compute; reflexivity|].
  split; [apply Hdec; vm_compute; reflexivity|].
  split; [apply Hdec; vm_compute; reflexivity|].
  vm_compute. reflexivity.
Qed.

(** C5, amended.  In a render that returns no error, a file is created
    exactly when it is not skipped and, for variables.module.tf, the
    Variables are not empty.  A file is skipped when skip-existing mode
    is on and [fileExists] reports its path as existing, which it does
    for a file that is there and also for a path on which [os.Stat]
    fails for another reason than a missing file.  So main.tf,
    variables.tf, terraform.tfvars.tmpl and providers.tfvars are
    created whenever they are not skipped in that way, and
    variables.module.tf if and only if, besides, there are variables. *)
Theorem files_created_by_render
    (requiredVersion : string)
    (newVariablesTF newModuleVariablesTF newTFVarsTmpl newProvidersTFVars
       : tfFileFunc)
    (visit : list (string * tfFileFunc)) (input : RootModuleInputData)
    (os os' : OS) :
  visit ≡ₚ fileFuncs requiredVersion newVariablesTF newModuleVariablesTF
             newTFVarsTmpl newProvidersTFVars →
  InitRootModule visit input os = (os', None) →
  ∃ new,
    events os' = events os ++ new
    ∧ (SysCreate (filepath_Join (Path input) ModuleVarsFilename) ∈ new
       ↔ size (Variables input) ≠ 0
         ∧ fileExists os (filepath_Join (Path input) ModuleVarsFilename)
           && skipOverride input = false)
    ∧ Forall (λ fn, SysCreate (filepath_Join (Path input) fn) ∈ new
                    ↔ fileExists os (filepath_Join (Path input) fn)
                      && skipOverride input = false)
        [RootFilename; VarsFilename; TFVarsTmplFilename;
         ProvidersTFVarsFilename].
Proof.
  intros Hperm Hrun. unfold InitRootModule in Hrun.
  assert (visit.*1 ≡ₚ [RootFilename; VarsFilename; ModuleVarsFilename;
                       TFVarsTmplFilename; ProvidersTFVarsFilename]) as Hnames.
  { by rewrite Hperm. }
  assert (NoDup visit.*1) as Hnd.
  { rewrite Hnames. apply (bool_decide_unpack _). vm_compute. reflexivity. }
  destruct (initModule_created (init input) visit os os' Hnd Hrun)
    as (new & Hev & Hnew).
  exists new. split; [done|]. split.
  - change (Path input) with (Path (init input)). rewrite Hnew, Hnames.
    unfold skipsModuleVars. rewrite bool_decide_true by done. simpl.
    rewrite bool_decide_eq_false. split.
    + by intros (_ & ? & ?).
    + intros [? ?]. split; [|done].
      rewrite !elem_of_cons. right. right. by left.
  - repeat (apply Forall_cons; split); [..|by apply Forall_nil];
      change (Path input) with (Path (init input)); rewrite Hnew, Hnames;
      unfold skipsModuleVars; rewrite bool_decide_false by done; simpl;
      rewrite !elem_of_cons; tauto.
Qed.

Definition regionInput : RootModuleInputData :=
  mkInput None None [] ∅ [] (mkTask "" "web" "./module" "")
    {[ "region" := cty.StringVal "us-east-1" ]} None "out" 420 false None.

Definition emptyDisk : OS := mkOS ∅ ∅ ∅ ∅ ∅ 18 [].

Lemma files_created_by_render_witness :
  ∃ new,
    events (InitRootModule
              (fileFuncs ">= 0.13" SkipClaims.noContent SkipClaims.noContent
                 SkipClaims.noContent SkipClaims.noContent)
              regionInput emptyDisk).1 = events emptyDisk ++ new
    ∧ (SysCreate (filepath_Join (Path regionInput) ModuleVarsFilename) ∈ new
       ↔ size (Variables regionInput) ≠ 0
         ∧ fileExists emptyDisk
             (filepath_Join (Path regionInput) ModuleVarsFilename)
           && skipOverride regionInput = false)
    ∧ Forall (λ fn, SysCreate (filepath_Join (Path regionInput) fn) ∈ new
                    ↔ fileExists emptyDisk (filepath_Join (Path regionInput) fn)
                      && skipOverride regionInput = false)
        [RootFilename; VarsFilename; TFVarsTmplFilename;
         ProvidersTFVarsFilename].
Proof.
  apply (files_created_by_render ">= 0.13" SkipClaims.noContent
           SkipClaims.noContent SkipClaims.noContent SkipClaims.noContent
           (fileFuncs ">= 0.13" SkipClaims.noContent SkipClaims.noContent
              SkipClaims.noContent SkipClaims.noContent)).
  - reflexivity.
  - vm_compute. reflexivity.
Defined.

End FileSetClaims.

(** ** Errors of the preamble *)

Module Preamble.
Import tftmpl Bundle.

(** A turn of the loop that creates the file returns the error of the
    file function, keeps the lines it logged and stores what it wrote. *)
Lemma initFile_run input fn (g : tfFileFunc) os :
  skipsModuleVars input fn = false →
  fileExists os (filepath_Join (Path input) fn) && skipOverride input = false →
  filepath_Join (Path input) fn ∉ createErrors os →
  filepath_Join (Path input) fn ∉ chmodErrors os →
  let r := g (io.mkWriter ""
                (default [] (writeFaults os !! filepath_Join (Path input) fn)))
             fn input in
  (initFile input fn g os).2 = r.2
  ∧ (∀ l, l ∈ r.1.2 → Log l ∈ events (initFile input fn g os).1)
  ∧ files (initFile input fn g os).1 !! filepath_Join (Path input) fn
    = Some (mkFile (io.written r.1.1) (FilePerms input)).
Proof.
  intros Hmv Hex Hc Hm. cbv zeta.
  unfold initFile. fold (skipsModuleVars input fn). rewrite Hmv, Hex.
  set (p := filepath_Join (Path input) fn) in *.
  set (os0 := record _ (if fileExists os p then _ else _)).
  assert (files os0 = files os ∧ createErrors os0 = createErrors os
          ∧ chmodErrors os0 = chmodErrors os
          ∧ writeFaults os0 = writeFaults os) as (Hfs & Hcr & Hch & Hwf).
  { unfold os0. by destruct (fileExists os p). }
  clearbody os0.
  unfold os_Create. rewrite bool_decide_false by (by rewrite Hcr).
  unfold file_Chmod, record, withEvents, withFiles.
  cbn [createErrors chmodErrors files statErrors writeFaults umask events].
  rewrite bool_decide_false by (by rewrite Hch).
  unfold callFileFunc, withEvents, withFiles.
  cbn [createErrors chmodErrors files statErrors writeFaults umask events].
  rewrite Hwf.
  destruct (g _ fn input) as [[w logged] [e|]];
    unfold record, withEvents, withFiles;
    cbn [createErrors chmodErrors files statErrors writeFaults umask events
           fst snd].
  - split; [done|]. split.
    + intros l Hl. rewrite !elem_of_app. left. right.
      apply elem_of_cons. right. by apply list_elem_of_fmap_2.
    + by rewrite !lookup_alter_eq, lookup_insert_eq.
  - split; [done|]. split.
    + intros l Hl. rewrite !elem_of_app. left. right.
      apply elem_of_cons. right. by apply list_elem_of_fmap_2.
    + by rewrite !lookup_alter_eq, lookup_insert_eq.
Qed.

End Preamble.

(** ** Statements on the errors of the preamble *)

Module PreambleClaims.
Import tftmpl Bundle Preamble.

Definition diskFailingWrites (faults : list bool) : OS :=
  mkOS ∅ ∅ ∅ ∅ {[ "out/main.tf" := faults ]} 18 [].

(** C7, as stated, fails: when the write of the task preamble fails,
    [newMainTF] returns the error and the render of the bundle returns
    it too. *)
Lemma task_preamble_failure_is_returned :
  newMainTF ">= 0.13" (io.mkWriter "" [false; true]) "main.tf"
    MainFileClaims.sampleInput
  = (io.mkWriter RootPreamble [], [WarnTaskPreamble "main.tf"],
     Some io.ErrWrite)
  ∧ (InitRootModule
       (fileFuncs ">= 0.13" SkipClaims.noContent SkipClaims.noContent
          SkipClaims.noContent SkipClaims.noContent)
       MainFileClaims.sampleInput (diskFailingWrites [false; true])).2
    = Some io.ErrWrite.
Proof. split; vm_compute; reflexivity. Qed.

(** C7, amended.  In the turn of the loop that creates main.tf: when
    only the write of the repository-wide warning preamble fails, the
    failure is logged and the turn returns no error; when the write of
    the task preamble fails, the failure is logged and the turn
    returns that error, which ends the render of the bundle. *)
Theorem preamble_write_failures
    (requiredVersion : string) (input : RootModuleInputData) (os : OS) :
  fileExists os (filepath_Join (Path input) RootFilename)
    && skipOverride input = false →
  filepath_Join (Path input) RootFilename ∉ createErrors os →
  filepath_Join (Path input) RootFilename ∉ chmodErrors os →
  (writeFaults os !! filepath_Join (Path input) RootFilename = Some [true] →
   (initFile input RootFilename (newMainTF requiredVersion) os).2 = None
   ∧ Log (WarnPreamble RootFilename)
       ∈ events (initFile input RootFilename (newMainTF requiredVersion) os).1)
  ∧ (∀ b rest,
       writeFaults os !! filepath_Join (Path input) RootFilename
       = Some (b :: true :: rest) →
       (initFile input RootFilename (newMainTF requiredVersion) os).2
       = Some io.ErrWrite
       ∧ Log (WarnTaskPreamble RootFilename)
           ∈ events (initFile input RootFilename (newMainTF requiredVersion) os).1).
Proof.
  intros Hex Hc Hm.
  destruct (initFile_run input RootFilename (newMainTF requiredVersion) os)
    as (Herr & Hlog & _); [done..|].
  rewrite Herr. split.
  - intros Hw. rewrite Hw in Hlog |- *. split; [done|].
    apply Hlog. simpl. by left.
  - intros b rest Hw. rewrite Hw in Hlog |- *. split.
    + by destruct b.
    + apply Hlog. destruct b; simpl; [right|]; by left.
Qed.

Lemma preamble_write_failures_witness :
  ((initFile MainFileClaims.sampleInput RootFilename (newMainTF ">= 0.13")
      (diskFailingWrites [true])).2 = None
   ∧ Log (WarnPreamble RootFilename)
       ∈ events (initFile MainFileClaims.sampleInput RootFilename
                   (newMainTF ">= 0.13") (diskFailingWrites [true])).1)
  ∧ ((initFile MainFileClaims.sampleInput RootFilename (newMainTF ">= 0.13")
        (diskFailingWrites [true; true])).2 = Some io.ErrWrite
     ∧ Log (WarnTaskPreamble RootFilename)
         ∈ events (initFile MainFileClaims.sampleInput RootFilename
                     (newMainTF ">= 0.13") (diskFailingWrites [true; true])).1).
Proof.
  split.
  - apply (proj1 (preamble_write_failures ">= 0.13" MainFileClaims.sampleInput
                    (diskFailingWrites [true])
                    ltac:(vm_compute; reflexivity)
                    ltac:(apply not_elem_of_empty)
                    ltac:(apply not_elem_of_empty))).
    vm_compute. reflexivity.
  - apply (proj2 (preamble_write_failures ">= 0.13" MainFileClaims.sampleInput
                    (diskFailingWrites [true; true])
                    ltac:(vm_compute; reflexivity)
                    ltac:(apply not_elem_of_empty)
                    ltac:(apply not_elem_of_empty)) true []).
    vm_compute. reflexivity.
Defined.

End PreambleClaims.

(** ** Statements on the order of the input *)

Module OrderClaims.
Import tftmpl SortFacts.

(** The input with its providers and services replaced. *)
Definition withLists (ps : list hcltmpl.NamedBlock) (ss : list Service)
    (d : RootModuleInputData) : RootModuleInputData :=
  mkInput (TerraformVersion d) (Backend d) ps (ProviderInfo d) ss
    (InputTask d) (Variables d) (InputCondition d) (Path d) (FilePerms d)
    (skipOverride d) (backend d).

Definition awsEast : hcltmpl.NamedBlock :=
  hcltmpl.mkNamedBlock "aws" {[ "region" := cty.StringVal "us-east-1" ]}.

Definition awsProfile : hcltmpl.NamedBlock :=
  hcltmpl.mkNamedBlock "aws" {[ "profile" := cty.StringVal "ops" ]}.

Definition twoAws : RootModuleInputData :=
  mkInput None None [awsEast; awsProfile] ∅ []
    (mkTask "" "web" "./module" "") ∅ None "out" 420 false None.

(** C1, as stated, fails: of these two providers of one name neither
    is less than the other, so the sort of the two leaves each order of
    the input as it is, and main.tf follows the order of the input. *)
Lemma same_name_providers_keep_input_order :
  Providers twoAws ≡ₚ [awsProfile; awsEast]
  ∧ Providers (init twoAws) = [awsEast; awsProfile]
  ∧ Providers (init (withLists [awsProfile; awsEast] [] twoAws))
    = [awsProfile; awsEast]
  ∧ hclbytes.Bytes (mainDocument ">= 0.13" (init twoAws))
    ≠ hclbytes.Bytes
        (mainDocument ">= 0.13"
           (init (withLists [awsProfile; awsEast] [] twoAws))).
Proof.
  split; [apply perm_swap|].
  split; [vm_compute; reflexivity|].
  split; [vm_compute; reflexivity|].
  vm_compute. discriminate.
Qed.

(** C1, amended.  When the providers have distinct names and the
    services have distinct names, an input with the same providers and
    the same services in another order is normalised to the same
    input: every file function then gets the same data, the render of
    the bundle does the same, and the bytes of main.tf are the same. *)
Theorem permuted_input_same_output
    (requiredVersion : string) (visit : list (string * tfFileFunc))
    (d : RootModuleInputData) (ps : list hcltmpl.NamedBlock)
    (ss : list Service) (os : OS) :
  Providers d ≡ₚ ps →
  Services d ≡ₚ ss →
  NoDup (hcltmpl.Name <$> Providers d) →
  NoDup (ServiceName <$> Services d) →
  init (withLists ps ss d) = init d
  ∧ InitRootModule visit (withLists ps ss d) os = InitRootModule visit d os
  ∧ hclbytes.Bytes (mainDocument requiredVersion (init (withLists ps ss d)))
    = hclbytes.Bytes (mainDocument requiredVersion (init d)).
Proof.
  intros Hps Hss Hndp Hnds.
  assert (init (withLists ps ss d) = init d) as E.
  { unfold init, withLists. simpl. f_equal.
    - symmetry. by apply (sort_by_key_perm_eq hcltmpl.Name).
    - symmetry. by apply (sort_by_key_perm_eq ServiceName). }
  split; [exact E|]. unfold InitRootModule. by rewrite E.
Qed.

Definition local : hcltmpl.NamedBlock :=
  hcltmpl.mkNamedBlock "local" {[ "path" := cty.StringVal "/tmp" ]}.

Definition api : Service := mkService "dc1" "" "api" "" "" "" ∅.
Definition web : Service := mkService "dc1" "" "web" "" "" "" ∅.

Definition twoProviders : RootModuleInputData :=
  mkInput None None [local; awsEast] ∅ [web; api]
    (mkTask "" "web" "./module" "") ∅ None "out" 420 false None.

Lemma permuted_input_same_output_witness :
  init (withLists [awsEast; local] [api; web] twoProviders) = init twoProviders
  ∧ InitRootModule [] (withLists [awsEast; local] [api; web] twoProviders)
      FileSetClaims.emptyDisk
    = InitRootModule [] twoProviders FileSetClaims.emptyDisk
  ∧ hclbytes.Bytes
      (mainDocument ">= 0.13"
         (init (withLists [awsEast; local] [api; web] twoProviders)))
    = hclbytes.Bytes (mainDocument ">= 0.13" (init twoProviders)).
Proof.
  apply permuted_input_same_output.
  - apply perm_swap.
  - apply perm_swap.
  - apply (bool_decide_unpack _). vm_compute. reflexivity.
  - apply (bool_decide_unpack _). vm_compute. reflexivity.
Defined.

End OrderClaims.

(** * Further properties of the code *)

(** ** Replacing and trimming *)

Module GoStringsFacts.
Import GoStrings StringFacts.

(** The escape of the double quotes of a filter, as [hcatQuery] calls
    [ReplaceAll], and the replacement the other way. *)
Definition escapeQuotes (f : string) : string :=
  ReplaceAll f tftmpl.dquote tftmpl.escapedQuote.

Definition unescapeQuotes (f : string) : string :=
  ReplaceAll f tftmpl.escapedQuote tftmpl.dquote.

Lemma escapeQuotes_cons (c : ascii) (r : string) :
  escapeQuotes (String c r)
  = (if bool_decide (c = hclbytes.quote_char) then tftmpl.escapedQuote
     else String c "") +:+ escapeQuotes r.
Proof.
  unfold escapeQuotes, ReplaceAll.
  rewrite !(bool_decide_false (tftmpl.dquote = _)) by done.
  cbn [replaceFrom]. unfold tftmpl.dquote at 1. cbn [String.prefix].
  destruct (Ascii.ascii_dec hclbytes.quote_char c) as [<-|Hne].
  - rewrite bool_decide_true by done. by destruct r.
  - rewrite bool_decide_false by done. done.
Qed.

Lemma escapeQuotes_nil : escapeQuotes "" = "".
Proof. reflexivity. Qed.

Lemma escapeQuotes_no_leading_quote (f r : string) :
  escapeQuotes f ≠ String hclbytes.quote_char r.
Proof.
  destruct f as [|c f]; [done|]. rewrite escapeQuotes_cons.
  case_bool_decide as Hc; [done|]. rewrite append_cons. congruence.
Qed.

Lemma unescape_step_match (x : string) :
  replaceFrom tftmpl.escapedQuote tftmpl.dquote 0 (tftmpl.escapedQuote +:+ x)
  = String hclbytes.quote_char
      (replaceFrom tftmpl.escapedQuote tftmpl.dquote 0 x).
Proof.
  change (tftmpl.escapedQuote +:+ x)
    with (String hclbytes.backslash (String hclbytes.quote_char x)).
  cbn [replaceFrom].
  assert (String.prefix tftmpl.escapedQuote
            (String hclbytes.backslash (String hclbytes.quote_char x)) = true)
    as ->.
  { cbn [String.prefix tftmpl.escapedQuote tftmpl.dquote].
    destruct (Ascii.ascii_dec hclbytes.backslash hclbytes.backslash); [|done].
    destruct (Ascii.ascii_dec hclbytes.quote_char hclbytes.quote_char); [|done].
    by destruct x. }
  reflexivity.
Qed.

Lemma unescape_step_other (c : ascii) (f : string) :
  c ≠ hclbytes.quote_char →
  replaceFrom tftmpl.escapedQuote tftmpl.dquote 0 (String c (escapeQuotes f))
  = String c (replaceFrom tftmpl.escapedQuote tftmpl.dquote 0 (escapeQuotes f)).
Proof.
  intros Hc. cbn [replaceFrom].
  assert (String.prefix tftmpl.escapedQuote (String c (escapeQuotes f)) = false)
    as ->; [|done].
  cbn [String.prefix tftmpl.escapedQuote tftmpl.dquote].
  destruct (Ascii.ascii_dec hclbytes.backslash c); [|done].
  destruct (escapeQuotes f) as [|d r] eqn:E; [done|].
  cbn [String.prefix tftmpl.dquote].
  destruct (Ascii.ascii_dec hclbytes.quote_char d) as [<-|]; [|done].
  by destruct (escapeQuotes_no_leading_quote f r).
Qed.

Lemma unescape_escape (f : string) : unescapeQuotes (escapeQuotes f) = f.
Proof.
  unfold unescapeQuotes, ReplaceAll.
  rewrite !(bool_decide_false (tftmpl.escapedQuote = _)) by done.
  induction f as [|c f IH]; [done|].
  rewrite escapeQuotes_cons. case_bool_decide as Hc.
  - subst c. by rewrite unescape_step_match, IH.
  - rewrite append_cons, append_nil_l.
    by rewrite unescape_step_other, IH.
Qed.

(** What trimming leaves at the two ends. *)
Definition headOut (cutset s : string) : Prop :=
  match s with
  | EmptyString => True
  | String c _ => inCutset c cutset = false
  end.

Fixpoint lastOut (cutset s : string) : Prop :=
  match s with
  | EmptyString => True
  | String c EmptyString => inCutset c cutset = false
  | String _ r => lastOut cutset r
  end.

Fixpoint allIn (cutset s : string) : bool :=
  match s with
  | EmptyString => true
  | String c r => inCutset c cutset && allIn cutset r
  end.

Lemma TrimRight_lastOut (s cutset : string) : lastOut cutset (TrimRight s cutset).
Proof.
  induction s as [|c s IH]; [done|]. cbn [TrimRight].
  destruct (TrimRight s cutset) as [|d r] eqn:E.
  - destruct (inCutset c cutset) eqn:Hc; simpl; done.
  - exact IH.
Qed.

Lemma TrimLeft_headOut (s cutset : string) : headOut cutset (TrimLeft s cutset).
Proof.
  induction s as [|c s IH]; [done|]. cbn [TrimLeft].
  destruct (inCutset c cutset) eqn:Hc; [done|]. exact Hc.
Qed.

Lemma TrimLeft_lastOut (s cutset : string) :
  lastOut cutset s → lastOut cutset (TrimLeft s cutset).
Proof.
  induction s as [|c s IH]; [done|]. cbn [TrimLeft]. intros H.
  destruct (inCutset c cutset) eqn:Hc; [|done].
  apply IH. destruct s; [done|]. exact H.
Qed.

Lemma TrimRight_allIn (s cutset : string) :
  allIn cutset s = true → TrimRight s cutset = "".
Proof.
  induction s as [|c s IH]; [done|]. cbn [allIn TrimRight].
  intros [Hc Hs]%andb_true_iff. by rewrite IH, Hc.
Qed.

End GoStringsFacts.

(** ** The query of a service *)

Module QueryFacts.
Import tftmpl GoStrings GoStringsFacts StringFacts.

(** The option that the filter of a service gives. *)
Definition filterOption (s : Service) : string :=
  Trim (escapeQuotes (Filter s)) hclbytes.nl.

(** The options of a query, field by field. *)
Definition queryOptions (s : Service) : list string :=
  (if bool_decide (Datacenter s = "") then [] else ["dc=" +:+ Datacenter s])
  ++ (if bool_decide (Namespace s = "") then [] else ["ns=" +:+ Namespace s])
  ++ (if bool_decide (Tag s = "") then []
      else [escapedQuote +:+ Tag s +:+ escapedQuote +:+ " in Service.Tags"])
  ++ (if bool_decide (Filter s = "") then [] else [filterOption s]).

(** An option as a word of the query: a space, then the option between
    double quotes. *)
Definition word (option : string) : string :=
  " " +:+ dquote +:+ option +:+ dquote.

Definition setFilter (filter : string) (s : Service) : Service :=
  mkService (Datacenter s) (ServiceDescription s) (ServiceName s)
    (Namespace s) (Tag s) filter (CTSUserDefinedMeta s).

Lemma Join_words (o : string) (opts : list string) :
  " " +:+ dquote +:+ Join (o :: opts) (dquote +:+ " " +:+ dquote) +:+ dquote
  = hclbytes.concatStrings (map word (o :: opts)).
Proof.
  revert o. induction opts as [|o' opts IH]; intros o.
  - unfold word. simpl. by rewrite append_nil_r.
  - change (Join (o :: o' :: opts) (dquote +:+ " " +:+ dquote))
      with (o +:+ (dquote +:+ " " +:+ dquote)
            +:+ Join (o' :: opts) (dquote +:+ " " +:+ dquote)).
    change (hclbytes.concatStrings (map word (o :: o' :: opts)))
      with (word o +:+ hclbytes.concatStrings (map word (o' :: opts))).
    rewrite <- IH. unfold word. by rewrite !append_assoc.
Qed.

(** The last step of [hcatQuery]: the query of a name and its options. *)
Definition queryOf (query : string) (opts : list string) : string :=
  if bool_decide (0 < length opts)
  then query +:+ " " +:+ dquote
       +:+ Join opts (dquote +:+ " " +:+ dquote) +:+ dquote
  else query.

Lemma queryOf_words (query : string) (opts : list string) :
  queryOf query opts = query +:+ hclbytes.concatStrings (map word opts).
Proof.
  unfold queryOf. destruct opts as [|o opts].
  - rewrite bool_decide_false by (simpl; lia). simpl. by rewrite append_nil_r.
  - rewrite bool_decide_true by (simpl; lia). by rewrite <- Join_words.
Qed.

Lemma hcatQuery_options (Quote : string → string) (s : Service) :
  hcatQuery Quote s = queryOf (Quote (ServiceName s)) (queryOptions s).
Proof.
  unfold hcatQuery, queryOf, queryOptions, filterOption, escapeQuotes.
  destruct (decide (Datacenter s = "")) as [Hd|Hd],
           (decide (Namespace s = "")) as [Hn|Hn],
           (decide (Tag s = "")) as [Ht|Ht],
           (decide (Filter s = "")) as [Hf|Hf];
    repeat first
      [ rewrite (bool_decide_true (_ = "")) by done
      | rewrite (bool_decide_false (_ = "")) by done
      | rewrite (bool_decide_true (_ ≠ "")) by done
      | rewrite (bool_decide_false (_ ≠ "")) by (intros H; by apply H) ];
    reflexivity.
Qed.

(** X1.  The query of a service is the quoted name followed by one word
    per option, each a space and the option between double quotes; the
    options are, in this order and each only when its field is not
    empty, the datacenter, the namespace, the tag and the filter. *)
Theorem hcatQuery_words (Quote : string → string) (s : Service) :
  hcatQuery Quote s
  = Quote (ServiceName s) +:+ hclbytes.concatStrings (map word (queryOptions s)).
Proof.
  rewrite hcatQuery_options. apply queryOf_words.
Qed.

(** X2.  The escape of the double quotes of a filter loses nothing:
    replacing every backslash-quote pair of the escaped filter by a
    quote gives the filter back. *)
Theorem filter_escape_round_trip (filter : string) :
  ReplaceAll (ReplaceAll filter dquote escapedQuote) escapedQuote dquote
  = filter.
Proof. apply unescape_escape. Qed.

Lemma lastOut_not_suffix (s r : string) :
  lastOut hclbytes.nl s → s ≠ r +:+ hclbytes.nl.
Proof.
  revert s. induction r as [|c r IH]; intros s Hs E; subst s.
  - by vm_compute in Hs.
  - rewrite append_cons in Hs. cbn [lastOut] in Hs.
    destruct (r +:+ hclbytes.nl) as [|d x] eqn:Ex.
    + by destruct r.
    + by apply (IH (String d x)).
Qed.

(** X3.  The option of a filter neither begins nor ends with a newline,
    whatever the filter. *)
Theorem filter_option_is_trimmed (s : Service) (r : string) :
  filterOption s ≠ hclbytes.nl +:+ r ∧ filterOption s ≠ r +:+ hclbytes.nl.
Proof.
  unfold filterOption, Trim. split.
  - pose proof (TrimLeft_headOut
                  (TrimRight (escapeQuotes (Filter s)) hclbytes.nl) hclbytes.nl)
      as H.
    intros E. rewrite E in H. by vm_compute in H.
  - apply lastOut_not_suffix, TrimLeft_lastOut, TrimRight_lastOut.
Qed.

Lemma escapeQuotes_allIn (f : string) :
  allIn hclbytes.nl f = true → escapeQuotes f = f.
Proof.
  induction f as [|c f IH]; [done|]. cbn [allIn].
  intros [Hc Hf]%andb_true_iff. rewrite escapeQuotes_cons, IH by done.
  rewrite bool_decide_false; [done|].
  intros ->. by vm_compute in Hc.
Qed.

(** X4.  A filter that is not empty and holds newlines only adds an
    empty option: the query is the one of the service without filter,
    followed by a space and two double quotes. *)
Theorem newline_filter_gives_empty_option
    (Quote : string → string) (s : Service) :
  Filter s ≠ "" →
  allIn hclbytes.nl (Filter s) = true →
  hcatQuery Quote s = hcatQuery Quote (setFilter "" s) +:+ word "".
Proof.
  intros Hne Hall. rewrite !hcatQuery_options, !queryOf_words.
  unfold queryOptions.
  cbn [setFilter Datacenter Namespace Tag Filter ServiceName].
  rewrite (bool_decide_false (Filter s = "")) by done.
  rewrite (bool_decide_true ("" = "")) by done.
  unfold filterOption, Trim.
  rewrite escapeQuotes_allIn, TrimRight_allIn by done.
  rewrite !app_assoc, app_nil_r, map_app, BytesFacts.concatStrings_app.
  cbn [map TrimLeft hclbytes.concatStrings foldr].
  by rewrite append_nil_r, append_assoc.
Qed.

Definition plainQuote (name : string) : string := dquote +:+ name +:+ dquote.

Definition newlineFiltered : Service :=
  mkService "dc1" "" "api" "" "" (hclbytes.nl +:+ hclbytes.nl) ∅.

Lemma newline_filter_gives_empty_option_witness :
  hcatQuery plainQuote newlineFiltered
  = hcatQuery plainQuote (setFilter "" newlineFiltered) +:+ word "".
Proof.
  apply newline_filter_gives_empty_option.
  - discriminate.
  - vm_compute. reflexivity.
Defined.

End QueryFacts.

(** ** The normalised input *)

Module NormalFacts.
Import tftmpl SortFacts GoSortFacts.

(** No element has a name less than the name of an earlier one. *)
Definition nondecreasing {A : Type} (key : A → string) : list A → Prop :=
  StronglySorted (λ a b, String.ltb (key b) (key a) = false).

(** X5.  [init] keeps the providers and the services, each in an order
    in which no name is less than an earlier one, leaves [Backend]
    non-nil and changes no other field that the file functions read. *)
Theorem init_normal_form (d : RootModuleInputData) :
  Providers (init d) ≡ₚ Providers d
  ∧ nondecreasing hcltmpl.Name (Providers (init d))
  ∧ Services (init d) ≡ₚ Services d
  ∧ nondecreasing ServiceName (Services (init d))
  ∧ Backend (init d) ≠ None
  ∧ (InputTask (init d), Variables (init d), ProviderInfo (init d),
     InputCondition (init d), Path (init d), FilePerms (init d),
     skipOverride (init d))
    = (InputTask d, Variables d, ProviderInfo d, InputCondition d, Path d,
       FilePerms d, skipOverride d).
Proof.
  split; [apply sort_Slice_perm|].
  split; [apply (sort_by_key_sorted hcltmpl.Name)|].
  split; [apply sort_Slice_perm|].
  split; [apply (sort_by_key_sorted ServiceName)|].
  split; [|done].
  simpl. by destruct (Backend d).
Qed.

(** X6.  When the names are distinct, normalising a normalised input
    leaves its providers and its services as they are. *)
Theorem init_again_keeps_order (d : RootModuleInputData) :
  NoDup (hcltmpl.Name <$> Providers d) →
  NoDup (ServiceName <$> Services d) →
  Providers (init (init d)) = Providers (init d)
  ∧ Services (init (init d)) = Services (init d).
Proof.
  intros Hp Hs. split.
  - apply (sort_by_key_perm_eq hcltmpl.Name).
    + change (Providers (init d))
        with (GoSort.sort_Slice (lessKey hcltmpl.Name) (Providers d)).
      by rewrite sort_Slice_perm.
    + apply sort_Slice_perm.
  - apply (sort_by_key_perm_eq ServiceName).
    + change (Services (init d))
        with (GoSort.sort_Slice (lessKey ServiceName) (Services d)).
      by rewrite sort_Slice_perm.
    + apply sort_Slice_perm.
Qed.

Lemma init_again_keeps_order_witness :
  Providers (init (init OrderClaims.twoProviders))
  = Providers (init OrderClaims.twoProviders)
  ∧ Services (init (init OrderClaims.twoProviders))
    = Services (init OrderClaims.twoProviders).
Proof.
  apply init_again_keeps_order.
  - apply (bool_decide_unpack _). vm_compute. reflexivity.
  - apply (bool_decide_unpack _). vm_compute. reflexivity.
Defined.

(** X7.  [sortedKeys] gives every key of the map once, in ascending
    order, and nothing else. *)
Theorem sortedKeys_lists_the_keys {V : Type} (m : gmap string V) :
  (∀ k, k ∈ sortedKeys m ↔ is_Some (m !! k))
  ∧ NoDup (sortedKeys m)
  ∧ ascending (sortedKeys m)
  ∧ length (sortedKeys m) = size m.
Proof.
  split; [apply elem_of_sortedKeys|].
  split; [apply sortedKeys_NoDup|].
  split; [apply sortedKeys_ascending|].
  rewrite (Permutation_length (sortedKeys_perm m)), length_fmap.
  apply length_map_to_list.
Qed.

End NormalFacts.

(** ** The layout of main.tf *)

Module LayoutFacts.
Import hclwrite tftmpl BodyFacts SortFacts ProviderBlocks ModuleBlock
  TerraformBlock.

(** The type and the labels of the blocks that stand directly in a
    body. *)
Definition blockHeaders (b : Body) : list (string * list string) :=
  omap (λ n, match n with Block t ls _ => Some (t, ls) | _ => None end) b.

Lemma blockHeaders_app b1 b2 :
  blockHeaders (b1 ++ b2) = blockHeaders b1 ++ blockHeaders b2.
Proof. apply omap_app. Qed.

Lemma blockHeaders_separated (ps : list hcltmpl.NamedBlock) :
  blockHeaders (specSeparated (map specProviderBlock ps))
  = map (λ p, ("provider", [hcltmpl.Name p])) ps.
Proof.
  induction ps as [|p ps IH]; [done|].
  destruct ps as [|q ps]; [done|].
  change (specSeparated (map specProviderBlock (p :: q :: ps)))
    with (specProviderBlock p :: Newline
          :: specSeparated (map specProviderBlock (q :: ps))).
  cbn [blockHeaders omap list_omap specProviderBlock].
  fold (blockHeaders (specSeparated (map specProviderBlock (q :: ps)))).
  by rewrite IH.
Qed.

Lemma attributeNames_separated (ps : list hcltmpl.NamedBlock) :
  attributeNames (specSeparated (map specProviderBlock ps)) = [].
Proof.
  induction ps as [|p ps IH]; [done|].
  destruct ps as [|q ps]; [done|].
  change (specSeparated (map specProviderBlock (p :: q :: ps)))
    with (specProviderBlock p :: Newline
          :: specSeparated (map specProviderBlock (q :: ps))).
  exact IH.
Qed.

(** X8.  The top level of main.tf has no attribute, and its blocks are,
    in this order: the terraform block, one provider block per provider
    labelled with its name, in the order of the list, and the module
    block labelled with the task name. *)
Theorem main_tf_layout (requiredVersion : string) (d : RootModuleInputData) :
  blockHeaders (mainDocument requiredVersion d)
  = ("terraform", [])
    :: map (λ p, ("provider", [hcltmpl.Name p])) (Providers d)
    ++ [("module", [Name (InputTask d)])]
  ∧ attributeNames (mainDocument requiredVersion d) = [].
Proof.
  unfold mainDocument. rewrite appendRootModuleBlock_unfold.
  unfold appendRootProviderBlocks.
  change (Z.of_nat (length (Providers d)) - 1)%Z
    with (0 + Z.of_nat (length (Providers d)) - 1)%Z.
  rewrite providerLoop_spec.
  unfold appendRootTerraformBlock, AppendNewline, AppendBlock, NewEmptyFile.
  split.
  - rewrite !blockHeaders_app, blockHeaders_separated.
    unfold specDescription.
    destruct (bool_decide (Description _ = "")); simpl;
      by rewrite ?app_nil_r, <- ?app_assoc.
  - rewrite !attributeNames_app, attributeNames_separated.
    unfold specDescription. by destruct (bool_decide (Description _ = "")).
Qed.

(** X9.  The terraform block lists the required providers exactly when
    there is provider information: then the block [required_providers]
    has one attribute per provider name, in ascending order, with the
    value kept for that name; otherwise there is no such block. *)
Theorem required_providers_block
    (requiredVersion : string) (backend : option hcltmpl.NamedBlock)
    (providerInfo : gmap string cty.Value) :
  ("required_providers" ∈ blockTypes (terraformBody requiredVersion backend providerInfo)
   ↔ providerInfo ≠ ∅)
  ∧ (∀ body,
       Block "required_providers" [] body
         ∈ terraformBody requiredVersion backend providerInfo →
       body = map (λ pName, Attribute pName
                              (ExprLiteral (default cty.NullVal
                                              (providerInfo !! pName))))
                (sortedKeys providerInfo))
  ∧ ascending (sortedKeys providerInfo).
Proof.
  rewrite terraformBody_spec.
  assert (size providerInfo = 0 ↔ providerInfo = ∅) as Hsize
    by apply map_size_empty_iff.
  assert (∀ n, n ∈ specBackend backend → ∃ b, n = specBackendBlock b) as Hback.
  { intros n. unfold specBackend. destruct backend as [b|].
    - case_bool_decide; [by intros ?%elem_of_nil|].
      intros ->%list_elem_of_singleton. by exists b.
    - by intros ?%elem_of_nil. }
  split; [|split; [|apply sortedKeys_ascending]].
  - rewrite blockTypes_app, elem_of_app. unfold specTerraformHead.
    case_bool_decide as Hz; rewrite Hsize in Hz; simpl.
    + split; [|done]. intros [H|H]; [by apply elem_of_nil in H|].
      unfold blockTypes in H. apply list_elem_of_omap in H as (n & Hn & Ht).
      apply Hback in Hn as [b ->]. discriminate.
    + split; [done|]. intros _. left. by apply list_elem_of_singleton.
  - intros body. rewrite elem_of_app. unfold specTerraformHead.
    intros [H|H].
    + apply elem_of_cons in H as [H|H]; [done|].
      case_bool_decide; [by apply elem_of_nil in H|].
      apply list_elem_of_singleton in H. by injection H.
    + apply Hback in H as [b H]. discriminate.
Qed.

End LayoutFacts.

(** ** What a turn of the loop leaves behind *)

Module TurnFacts.
Import tftmpl Bundle.

(** The writer that a file function gets: the file just truncated, with
    the faults of its path. *)
Definition freshWriter (os : OS) (filePath : string) : io.Writer :=
  io.mkWriter "" (default [] (writeFaults os !! filePath)).

(** The mode that [os.Create] leaves on a file. *)
Definition createdMode (os : OS) (filePath : string) : N :=
  match files os !! filePath with
  | Some f => mode f
  | None => N.ldiff 438 (umask os)
  end.

(** The error and the files of a turn, read off the state before it. *)
Definition turnErr (input : RootModuleInputData) (os : OS) (fn : string)
    (g : tfFileFunc) : option io.error :=
  let p := filepath_Join (Path input) fn in
  if skipsModuleVars input fn then None
  else if fileExists os p && skipOverride input then None
  else if bool_decide (p ∈ createErrors os) then Some (io.ErrCreate p)
  else if bool_decide (p ∈ chmodErrors os) then Some (io.ErrChmod p)
  else (g (freshWriter os p) fn input).2.

Definition turnFiles (input : RootModuleInputData) (os : OS) (fn : string)
    (g : tfFileFunc) : gmap string File :=
  let p := filepath_Join (Path input) fn in
  if skipsModuleVars input fn then files os
  else if fileExists os p && skipOverride input then files os
  else if bool_decide (p ∈ createErrors os) then files os
  else if bool_decide (p ∈ chmodErrors os)
  then <[p := mkFile "" (createdMode os p)]> (files os)
  else <[p := mkFile (io.written (g (freshWriter os p) fn input).1.1)
                (FilePerms input)]> (files os).

Definition sameStatics (os1 os2 : OS) : Prop :=
  statErrors os1 = statErrors os2
  ∧ createErrors os1 = createErrors os2
  ∧ chmodErrors os1 = chmodErrors os2
  ∧ writeFaults os1 = writeFaults os2
  ∧ umask os1 = umask os2.

Lemma initFile_turn input fn (g : tfFileFunc) os :
  (initFile input fn g os).2 = turnErr input os fn g
  ∧ files (initFile input fn g os).1 = turnFiles input os fn g
  ∧ sameStatics (initFile input fn g os).1 os
  ∧ ∃ new, events (initFile input fn g os).1 = events os ++ new.
Proof.
  unfold initFile, turnErr, turnFiles, sameStatics.
  fold (skipsModuleVars input fn).
  set (p := filepath_Join (Path input) fn).
  destruct (skipsModuleVars input fn).
  { repeat split. exists []. by rewrite app_nil_r. }
  destruct (fileExists os p && skipOverride input).
  { repeat split. by eexists [_]. }
  set (os0 := record _ (if fileExists os p then _ else _)).
  assert (files os0 = files os ∧ statErrors os0 = statErrors os
          ∧ createErrors os0 = createErrors os
          ∧ chmodErrors os0 = chmodErrors os
          ∧ writeFaults os0 = writeFaults os ∧ umask os0 = umask os
          ∧ ∃ pre, events os0 = events os ++ pre)
    as (Hfs & Hst & Hcr & Hch & Hwf & Hum & pre & Hev).
  { unfold os0. destruct (fileExists os p); simpl; repeat split.
    - eexists [_; _]. by rewrite <- app_assoc.
    - by eexists [_]. }
  clearbody os0.
  unfold os_Create. rewrite Hcr. case_bool_decide.
  { unfold record, withEvents. simpl. rewrite Hev, <- app_assoc.
    repeat split; try done. by eexists. }
  unfold file_Chmod, record, withEvents, withFiles.
  cbn [createErrors chmodErrors files statErrors writeFaults umask events].
  rewrite Hch. case_bool_decide.
  { cbn [createErrors chmodErrors files statErrors writeFaults umask events
           fst snd].
    unfold createdMode. rewrite Hev, Hfs, Hum, <- !app_assoc.
    repeat split; try done. by eexists. }
  unfold callFileFunc, withEvents, withFiles, freshWriter.
  cbn [createErrors chmodErrors files statErrors writeFaults umask events].
  rewrite Hwf, Hfs, Hev.
  destruct (g _ fn input) as [[w logged] [e|]];
    unfold record, withEvents, withFiles;
    cbn [createErrors chmodErrors files statErrors writeFaults umask events
           fst snd];
    rewrite !alter_insert_eq, <- !app_assoc;
    (repeat split; try done; by eexists).
Qed.

Lemma sameStatics_trans os1 os2 os3 :
  sameStatics os1 os2 → sameStatics os2 os3 → sameStatics os1 os3.
Proof.
  unfold sameStatics. intros (-> & -> & -> & -> & ->) H. exact H.
Qed.

Lemma turnFiles_frame input os fn (g : tfFileFunc) q :
  q ≠ filepath_Join (Path input) fn →
  turnFiles input os fn g !! q = files os !! q.
Proof.
  intros Hq. unfold turnFiles.
  repeat (match goal with |- context [if ?b then _ else _] => destruct b end);
    by rewrite ?lookup_insert_ne.
Qed.

(** A turn reads the state only at its own path and in the faults. *)
Lemma turn_agree input os1 os fn (g : tfFileFunc) :
  sameStatics os1 os →
  files os1 !! filepath_Join (Path input) fn
  = files os !! filepath_Join (Path input) fn →
  turnErr input os1 fn g = turnErr input os fn g
  ∧ turnFiles input os1 fn g !! filepath_Join (Path input) fn
    = turnFiles input os fn g !! filepath_Join (Path input) fn.
Proof.
  intros (Hst & Hcr & Hch & Hwf & Hum) Hf.
  unfold turnErr, turnFiles, freshWriter, createdMode.
  rewrite (fileExists_frame os os1) by done.
  rewrite Hcr, Hch, Hwf, Hum, Hf.
  repeat (match goal with |- context [if ?b then _ else _] => destruct b end);
    by rewrite ?lookup_insert_eq.
Qed.

Lemma initModule_spec input visit os :
  NoDup visit.*1 →
  ((initModule input visit os).2 = None
   ↔ ∀ fn g, (fn, g) ∈ visit → turnErr input os fn g = None)
  ∧ sameStatics (initModule input visit os).1 os
  ∧ (∀ q, (∀ fn, fn ∈ visit.*1 → q ≠ filepath_Join (Path input) fn) →
          files (initModule input visit os).1 !! q = files os !! q)
  ∧ ((initModule input visit os).2 = None →
     ∀ fn g, (fn, g) ∈ visit →
       files (initModule input visit os).1 !! filepath_Join (Path input) fn
       = turnFiles input os fn g !! filepath_Join (Path input) fn).
Proof.
  revert os. induction visit as [|[f0 g0] rest IH]; intros os Hnd.
  - simpl. split; [|split; [done|split; [done|]]].
    + split; [|done]. by intros _ fn g ?%elem_of_nil.
    + by intros _ fn g ?%elem_of_nil.
  - rewrite fmap_cons in Hnd. apply NoDup_cons in Hnd as [Hf0 Hnd].
    simpl in Hf0.
    destruct (initFile_turn input f0 g0 os) as (Herr & Hfiles & Hstat & _).
    cbn [initModule].
    destruct (initFile input f0 g0 os) as [os1 [e|]] eqn:E; simpl in *.
    + split; [|split; [done|split; [|done]]].
      * split; [done|]. intros H. rewrite (H f0 g0) in Herr; [done|by left].
      * intros q Hq. rewrite Hfiles. apply turnFiles_frame, Hq. by left.
    + assert (∀ fn, fn ∈ rest.*1 →
                files os1 !! filepath_Join (Path input) fn
                = files os !! filepath_Join (Path input) fn) as Hkeep.
      { intros fn Hfn. rewrite Hfiles. apply turnFiles_frame.
        intros ->%filepath_Join_inj. done. }
      assert (∀ fn g, (fn, g) ∈ rest → fn ∈ rest.*1) as Hin.
      { intros fn g H. apply list_elem_of_fmap. by exists (fn, g). }
      destruct (IH os1 Hnd) as (Hok & Hst' & Hframe & Hvis).
      split; [|split; [|split]].
      * rewrite Hok. split.
        -- intros H fn g [[= -> ->]|Hfg]%elem_of_cons; [done|].
           rewrite <- (H fn g Hfg).
           symmetry. apply turn_agree; [done|]. apply Hkeep. by eapply Hin.
        -- intros H fn g Hfg.
           rewrite <- (H fn g) by (by right).
           apply turn_agree; [done|]. apply Hkeep. by eapply Hin.
      * by eapply sameStatics_trans.
      * intros q Hq. rewrite Hframe.
        -- rewrite Hfiles. apply turnFiles_frame, Hq. by left.
        -- intros fn Hfn. apply Hq. by right.
      * intros Hnone fn g [[= -> ->]|Hfg]%elem_of_cons.
        -- rewrite Hframe; [by rewrite Hfiles|].
           intros fn Hfn ?%filepath_Join_inj. by subst.
        -- rewrite (Hvis Hnone fn g Hfg).
           apply turn_agree; [done|]. apply Hkeep. by eapply Hin.
Qed.

End TurnFacts.

(** ** The render of the bundle *)

Module RenderFacts.
Import tftmpl Bundle TurnFacts.

Lemma initModule_app input (l1 l2 : list (string * tfFileFunc)) os :
  initModule input (l1 ++ l2) os
  = match initModule input l1 os with
    | (os1, Some err) => (os1, Some err)
    | (os1, None) => initModule input l2 os1
    end.
Proof.
  revert os. induction l1 as [|[fn g] l1 IH]; intros os; [done|].
  cbn [app initModule].
  destruct (initFile input fn g os) as [os1 [e|]]; [done|]. apply IH.
Qed.

(** X10.  The render returns at the first turn that fails, with the
    error of that turn: no later file is visited, and the files of the
    earlier turns stay as those turns left them. *)
Theorem render_stops_at_first_error
    (input : RootModuleInputData) (before after : list (string * tfFileFunc))
    (fn : string) (g : tfFileFunc) (os os1 os2 : OS) (err : io.error) :
  initModule input before os = (os1, None) →
  initFile input fn g os1 = (os2, Some err) →
  initModule input (before ++ (fn, g) :: after) os = (os2, Some err)
  ∧ ∀ q, q ≠ filepath_Join (Path input) fn → files os2 !! q = files os1 !! q.
Proof.
  intros Hbefore Hturn. split.
  - rewrite initModule_app, Hbefore. cbn [initModule]. by rewrite Hturn.
  - intros q Hq.
    destruct (initFile_turn input fn g os1) as (_ & Hfiles & _).
    rewrite Hturn in Hfiles. simpl in Hfiles. rewrite Hfiles.
    by apply turnFiles_frame.
Qed.

(** X11.  Whatever the result, the render leaves every path alone that
    is not the path of a visited file name: the file there, or its
    absence, is as before. *)
Theorem render_touches_only_its_files
    (input : RootModuleInputData) (visit : list (string * tfFileFunc))
    (os : OS) (q : string) :
  Forall (λ fn, q ≠ filepath_Join (Path input) fn) visit.*1 →
  files (initModule input visit os).1 !! q = files os !! q.
Proof.
  revert os. induction visit as [|[fn g] rest IH]; intros os Hq; [done|].
  rewrite fmap_cons in Hq. apply Forall_cons in Hq as [Hfn Hrest].
  destruct (initFile_turn input fn g os) as (_ & Hfiles & _).
  cbn [initModule].
  destruct (initFile input fn g os) as [os1 [e|]]; simpl in *.
  - rewrite Hfiles. by apply turnFiles_frame.
  - rewrite (IH os1 Hrest), Hfiles. by apply turnFiles_frame.
Qed.

(** X12.  The order in which the file names are visited does not matter
    for a render without error: for two orders of the same entries,
    with distinct file names, one returns no error exactly when the
    other does, and then both leave the same files. *)
Theorem render_order_independent
    (input : RootModuleInputData) (visit1 visit2 : list (string * tfFileFunc))
    (os : OS) :
  visit1 ≡ₚ visit2 →
  NoDup visit1.*1 →
  ((initModule input visit1 os).2 = None
   ↔ (initModule input visit2 os).2 = None)
  ∧ ((initModule input visit1 os).2 = None →
     files (initModule input visit1 os).1
     = files (initModule input visit2 os).1).
Proof.
  intros Hperm Hnd1.
  assert (NoDup visit2.*1) as Hnd2 by (by rewrite <- Hperm).
  destruct (initModule_spec input visit1 os Hnd1) as (Hok1 & _ & Hfr1 & Hv1).
  destruct (initModule_spec input visit2 os Hnd2) as (Hok2 & _ & Hfr2 & Hv2).
  assert ((initModule input visit1 os).2 = None
          ↔ (initModule input visit2 os).2 = None) as Hiff.
  { rewrite Hok1, Hok2. by setoid_rewrite Hperm. }
  split; [exact Hiff|]. intros H1. pose proof (proj1 Hiff H1) as H2.
  apply map_eq. intros q.
  destruct (decide (q ∈ filepath_Join (Path input) <$> visit1.*1)) as [Hin|Hout].
  - apply list_elem_of_fmap in Hin as (fn & -> & Hfn).
    apply list_elem_of_fmap in Hfn as ([fn' g] & -> & Hfg). simpl.
    rewrite (Hv1 H1 fn' g Hfg).
    symmetry. apply (Hv2 H2). by rewrite <- Hperm.
  - rewrite Hfr1, Hfr2; [done| |].
    + intros fn Hfn ->. apply Hout. apply list_elem_of_fmap_2.
      by rewrite Hperm.
    + intros fn Hfn ->. apply Hout. by apply list_elem_of_fmap_2.
Qed.

(** X13.  In a render without error over distinct file names, a file
    that is visited and not skipped ends with the permission bits of the
    input and with exactly the bytes that its file function wrote to the
    truncated file: nothing of an older content or mode is left. *)
Theorem rendered_file_content_and_mode
    (input : RootModuleInputData) (visit : list (string * tfFileFunc))
    (os : OS) (fn : string) (g : tfFileFunc) :
  NoDup visit.*1 →
  (fn, g) ∈ visit →
  (initModule input visit os).2 = None →
  skipsModuleVars input fn = false →
  fileExists os (filepath_Join (Path input) fn) && skipOverride input = false →
  files (initModule input visit os).1 !! filepath_Join (Path input) fn
  = Some (mkFile
            (io.written
               (g (freshWriter os (filepath_Join (Path input) fn)) fn input).1.1)
            (FilePerms input)).
Proof.
  intros Hnd Hin Hok Hmv Hex.
  destruct (initModule_spec input visit os Hnd) as (Hiff & _ & _ & Hv).
  rewrite (Hv Hok fn g Hin).
  pose proof (proj1 Hiff Hok fn g Hin) as Herr.
  unfold turnErr in Herr. unfold turnFiles.
  rewrite Hmv, Hex in *.
  case_bool_decide; [done|]. case_bool_decide; [done|].
  apply lookup_insert_eq.
Qed.

(** X14.  When [os.Create] fails, the turn returns that error and no
    file is changed. *)
Theorem create_failure_changes_nothing
    (input : RootModuleInputData) (fn : string) (g : tfFileFunc) (os : OS) :
  skipsModuleVars input fn = false →
  fileExists os (filepath_Join (Path input) fn) && skipOverride input = false →
  filepath_Join (Path input) fn ∈ createErrors os →
  (initFile input fn g os).2
  = Some (io.ErrCreate (filepath_Join (Path input) fn))
  ∧ files (initFile input fn g os).1 = files os.
Proof.
  intros Hmv Hex Hc.
  destruct (initFile_turn input fn g os) as (-> & -> & _).
  unfold turnErr, turnFiles. rewrite Hmv, Hex.
  by rewrite !bool_decide_true.
Qed.

(** X15.  When the change of the permission bits fails, the turn returns
    that error after the file has been created: the file is left empty,
    with the mode it had before, or the default mode less the umask for
    a new file, and its file function has written nothing. *)
Theorem chmod_failure_leaves_empty_file
    (input : RootModuleInputData) (fn : string) (g : tfFileFunc) (os : OS) :
  skipsModuleVars input fn = false →
  fileExists os (filepath_Join (Path input) fn) && skipOverride input = false →
  filepath_Join (Path input) fn ∉ createErrors os →
  filepath_Join (Path input) fn ∈ chmodErrors os →
  (initFile input fn g os).2
  = Some (io.ErrChmod (filepath_Join (Path input) fn))
  ∧ files (initFile input fn g os).1 !! filepath_Join (Path input) fn
    = Some (mkFile "" (createdMode os (filepath_Join (Path input) fn))).
Proof.
  intros Hmv Hex Hc Hm.
  destruct (initFile_turn input fn g os) as (-> & -> & _).
  unfold turnErr, turnFiles. rewrite Hmv, Hex.
  rewrite !(bool_decide_false (_ ∈ createErrors os)) by done.
  rewrite !bool_decide_true by done.
  split; [done|]. apply lookup_insert_eq.
Qed.

(** X16.  A path on which [os.Stat] fails for another reason than a
    missing file counts as existing: with skip-existing mode on, a
    render whose paths all fail so returns no error and changes no
    file, also where no file is there. *)
Theorem stat_failure_counts_as_existing
    (input : RootModuleInputData) (visit : list (string * tfFileFunc))
    (os : OS) :
  skipOverride input = true →
  Forall (λ fn, filepath_Join (Path input) fn ∈ statErrors os) visit.*1 →
  (initModule input visit os).2 = None
  ∧ files (initModule input visit os).1 = files os.
Proof.
  intros Hskip. revert os.
  induction visit as [|[fn g] rest IH]; intros os Hall; [done|].
  rewrite fmap_cons in Hall. apply Forall_cons in Hall as [Hfn Hrest].
  destruct (initFile_turn input fn g os) as (Herr & Hfiles & Hstat & _).
  assert (turnErr input os fn g = None
          ∧ turnFiles input os fn g = files os) as [Hnone Hsame].
  { unfold turnErr, turnFiles, fileExists. simpl in Hfn.
    rewrite (bool_decide_true _ Hfn), Hskip. simpl.
    by destruct (skipsModuleVars input fn). }
  cbn [initModule].
  destruct (initFile input fn g os) as [os1 [e|]]; simpl in *;
    [congruence|].
  destruct (IH os1) as [Hr Hf].
  - destruct Hstat as (-> & _). exact Hrest.
  - split; [done|]. by rewrite Hf, Hfiles, Hsame.
Qed.

(** After a render without error every visited file is there for
    [fileExists], but for variables.module.tf when it is left out: it
    was there before and skipped, or the render created it. *)
Lemma visited_files_exist input (visit : list (string * tfFileFunc)) os :
  NoDup visit.*1 →
  (initModule input visit os).2 = None →
  ∀ fn, fn ∈ visit.*1 →
    skipsModuleVars input fn = true
    ∨ fileExists (initModule input visit os).1 (filepath_Join (Path input) fn)
      = true.
Proof.
  intros Hnd Hok fn Hfn.
  apply list_elem_of_fmap in Hfn as ([fn' g] & -> & Hfg). simpl.
  destruct (initModule_spec input visit os Hnd) as (Hiff & Hst & _ & Hv).
  pose proof (proj1 Hiff Hok fn' g Hfg) as Herr.
  pose proof (Hv Hok fn' g Hfg) as Hfile.
  destruct Hst as (Hst & _).
  unfold fileExists. rewrite Hst, Hfile. clear Hfile.
  revert Herr. unfold turnErr, turnFiles, fileExists.
  set (p := filepath_Join (Path input) fn').
  destruct (skipsModuleVars input fn'); [by left|]. intros Herr. right.
  revert Herr.
  destruct (bool_decide (p ∈ statErrors os)); [done|].
  assert (bool_decide (p ∈ createErrors os) = false →
          bool_decide (p ∈ chmodErrors os) = false →
          bool_decide
            (is_Some
               (<[p := mkFile
                         (io.written (g (freshWriter os p) fn' input).1.1)
                         (FilePerms input)]> (files os) !! p)) = true)
    as Hnew.
  { intros _ _. rewrite lookup_insert_eq. by apply bool_decide_eq_true. }
  destruct (bool_decide (is_Some (files os !! p))) eqn:Hex;
    destruct (skipOverride input); simpl; [by rewrite Hex|..];
    (destruct (bool_decide (p ∈ createErrors os)); [done|]);
    (destruct (bool_decide (p ∈ chmodErrors os)); [done|]);
    intros _; by apply Hnew.
Qed.

(** With skip-existing mode on, a render whose files are all there for
    [fileExists] logs one line for each and does nothing else. *)
Lemma initModule_all_skipped input (visit : list (string * tfFileFunc)) os :
  skipOverride input = true →
  (∀ fn, fn ∈ visit.*1 →
     skipsModuleVars input fn = true
     ∨ fileExists os (filepath_Join (Path input) fn) = true) →
  ∃ new,
    initModule input visit os = (withEvents (events os ++ new) os, None)
    ∧ Forall (λ e, ∃ fn, fn ∈ visit.*1
                         ∧ e = Log (DebugSkip fn (Name (InputTask input))))
        new.
Proof.
  intros Hskip. revert os.
  induction visit as [|[fn g] rest IH]; intros os Hall.
  - exists []. split; [|done]. destruct os. simpl. unfold withEvents. simpl.
    by rewrite app_nil_r.
  - cbn [initModule]. unfold initFile. fold (skipsModuleVars input fn).
    destruct (Hall fn) as [Hmv|Hex]; [by left| |].
    + rewrite Hmv.
      destruct (IH os) as (new & -> & Hnew).
      { intros f Hf. apply Hall. by right. }
      exists new. split; [done|].
      eapply Forall_impl; [exact Hnew|].
      intros e (f & Hf & ->). exists f. split; [by right|done].
    + destruct (skipsModuleVars input fn).
      * destruct (IH os) as (new & -> & Hnew).
        { intros f Hf. apply Hall. by right. }
        exists new. split; [done|].
        eapply Forall_impl; [exact Hnew|].
        intros e (f & Hf & ->). exists f. split; [by right|done].
      * rewrite Hex, Hskip. simpl.
        destruct (IH (record (Log (DebugSkip fn (Name (InputTask input)))) os))
          as (new & -> & Hnew).
        { intros f Hf. apply Hall. by right. }
        exists (Log (DebugSkip fn (Name (InputTask input))) :: new). split.
        -- unfold record, withEvents. simpl. by rewrite <- app_assoc.
        -- constructor; [exists fn; split; [by left|done]|].
           eapply Forall_impl; [exact Hnew|].
           intros e (f & Hf & ->). exists f. split; [by right|done].
Qed.

(** X20.  With skip-existing mode on, a render without error, over
    distinct file names, can be run again on what it left: the second
    render returns no error, leaves every file as the first left it,
    and does nothing but log that it skips a file. *)
Theorem render_again_skips_every_file
    (input : RootModuleInputData) (visit : list (string * tfFileFunc))
    (os : OS) :
  NoDup visit.*1 →
  skipOverride input = true →
  (initModule input visit os).2 = None →
  (initModule input visit (initModule input visit os).1).2 = None
  ∧ files (initModule input visit (initModule input visit os).1).1
    = files (initModule input visit os).1
  ∧ ∃ new,
      events (initModule input visit (initModule input visit os).1).1
      = events (initModule input visit os).1 ++ new
      ∧ Forall (λ e, ∃ fn, fn ∈ visit.*1
                           ∧ e = Log (DebugSkip fn (Name (InputTask input))))
          new.
Proof.
  intros Hnd Hskip Hok.
  pose proof (visited_files_exist input visit os Hnd Hok) as Hthere.
  destruct (initModule_all_skipped input visit _ Hskip Hthere)
    as (new & -> & Hnew).
  split; [done|]. split; [done|]. by exists new.
Qed.

(** Sample inputs. *)
Definition sampleFuncs : list (string * tfFileFunc) :=
  fileFuncs ">= 0.13" SkipClaims.noContent SkipClaims.noContent
    SkipClaims.noContent SkipClaims.noContent.

Definition diskNoCreate : OS :=
  mkOS ∅ ∅ {[ "out/variables.tf" ]} ∅ ∅ 18 [].

Definition diskNoChmod : OS :=
  mkOS {[ "out/variables.tf" := mkFile "old" 384 ]} ∅ ∅
    {[ "out/variables.tf" ]} ∅ 18 [].

Definition diskWithNotes : OS :=
  mkOS {[ "out/notes.txt" := mkFile "keep" 384 ]} ∅ ∅ ∅ ∅ 18 [].

Definition diskNoStat : OS :=
  mkOS ∅ {[ "out/main.tf"; "out/variables.tf" ]} ∅ ∅ ∅ 18 [].

Ltac decide_by_computation :=
  apply (bool_decide_unpack _); vm_compute; reflexivity.

Lemma render_stops_at_first_error_witness :
  initModule MainFileClaims.sampleInput
    ([(RootFilename, newMainTF ">= 0.13")]
     ++ (VarsFilename, SkipClaims.noContent)
        :: [(ProvidersTFVarsFilename, SkipClaims.noContent)])
    diskNoCreate
  = ((initFile MainFileClaims.sampleInput VarsFilename SkipClaims.noContent
        (initModule MainFileClaims.sampleInput
           [(RootFilename, newMainTF ">= 0.13")] diskNoCreate).1).1,
     Some (io.ErrCreate "out/variables.tf"))
  ∧ ∀ q, q ≠ filepath_Join (Path MainFileClaims.sampleInput) VarsFilename →
         files (initFile MainFileClaims.sampleInput VarsFilename
                  SkipClaims.noContent
                  (initModule MainFileClaims.sampleInput
                     [(RootFilename, newMainTF ">= 0.13")] diskNoCreate).1).1
           !! q
         = files (initModule MainFileClaims.sampleInput
                    [(RootFilename, newMainTF ">= 0.13")] diskNoCreate).1 !! q.
Proof.
  apply render_stops_at_first_error; vm_compute; reflexivity.
Defined.

Lemma render_touches_only_its_files_witness :
  files (initModule MainFileClaims.sampleInput sampleFuncs diskWithNotes).1
    !! "out/notes.txt"
  = files diskWithNotes !! "out/notes.txt".
Proof.
  apply render_touches_only_its_files. decide_by_computation.
Defined.

Lemma render_order_independent_witness :
  ((initModule MainFileClaims.sampleInput sampleFuncs diskWithNotes).2 = None
   ↔ (initModule MainFileClaims.sampleInput (reverse sampleFuncs)
        diskWithNotes).2 = None)
  ∧ ((initModule MainFileClaims.sampleInput sampleFuncs diskWithNotes).2 = None →
     files (initModule MainFileClaims.sampleInput sampleFuncs diskWithNotes).1
     = files (initModule MainFileClaims.sampleInput (reverse sampleFuncs)
                diskWithNotes).1).
Proof.
  apply render_order_independent.
  - symmetry. apply reverse_Permutation.
  - decide_by_computation.
Defined.

Lemma rendered_file_content_and_mode_witness :
  files (initModule MainFileClaims.sampleInput sampleFuncs
           SkipClaims.diskWithMain).1
    !! filepath_Join (Path MainFileClaims.sampleInput) RootFilename
  = Some (mkFile
            (io.written
               (newMainTF ">= 0.13"
                  (freshWriter SkipClaims.diskWithMain
                     (filepath_Join (Path MainFileClaims.sampleInput)
                        RootFilename))
                  RootFilename MainFileClaims.sampleInput).1.1)
            (FilePerms MainFileClaims.sampleInput)).
Proof.
  apply rendered_file_content_and_mode.
  - decide_by_computation.
  - by left.
  - vm_compute. reflexivity.
  - vm_compute. reflexivity.
  - vm_compute. reflexivity.
Defined.

Lemma create_failure_changes_nothing_witness :
  (initFile MainFileClaims.sampleInput VarsFilename SkipClaims.noContent
     diskNoCreate).2
  = Some (io.ErrCreate
            (filepath_Join (Path MainFileClaims.sampleInput) VarsFilename))
  ∧ files (initFile MainFileClaims.sampleInput VarsFilename
             SkipClaims.noContent diskNoCreate).1
    = files diskNoCreate.
Proof.
  apply create_failure_changes_nothing.
  - vm_compute. reflexivity.
  - vm_compute. reflexivity.
  - decide_by_computation.
Defined.

Lemma chmod_failure_leaves_empty_file_witness :
  (initFile MainFileClaims.sampleInput VarsFilename SkipClaims.noContent
     diskNoChmod).2
  = Some (io.ErrChmod
            (filepath_Join (Path MainFileClaims.sampleInput) VarsFilename))
  ∧ files (initFile MainFileClaims.sampleInput VarsFilename
             SkipClaims.noContent diskNoChmod).1
      !! filepath_Join (Path MainFileClaims.sampleInput) VarsFilename
    = Some (mkFile ""
              (createdMode diskNoChmod
                 (filepath_Join (Path MainFileClaims.sampleInput) VarsFilename))).
Proof.
  apply chmod_failure_leaves_empty_file.
  - vm_compute. reflexivity.
  - vm_compute. reflexivity.
  - decide_by_computation.
  - decide_by_computation.
Defined.

Lemma stat_failure_counts_as_existing_witness :
  (initModule SkipClaims.skippingInput
     [(RootFilename, newMainTF ">= 0.13"); (VarsFilename, SkipClaims.noContent)]
     diskNoStat).2 = None
  ∧ files (initModule SkipClaims.skippingInput
             [(RootFilename, newMainTF ">= 0.13");
              (VarsFilename, SkipClaims.noContent)]
             diskNoStat).1
    = files diskNoStat.
Proof.
  apply stat_failure_counts_as_existing.
  - reflexivity.
  - decide_by_computation.
Defined.

Lemma render_again_skips_every_file_witness :
  (initModule SkipClaims.skippingInput sampleFuncs
     (initModule SkipClaims.skippingInput sampleFuncs
        SkipClaims.diskWithMain).1).2 = None
  ∧ files (initModule SkipClaims.skippingInput sampleFuncs
             (initModule SkipClaims.skippingInput sampleFuncs
                SkipClaims.diskWithMain).1).1
    = files (initModule SkipClaims.skippingInput sampleFuncs
               SkipClaims.diskWithMain).1
  ∧ ∃ new,
      events (initModule SkipClaims.skippingInput sampleFuncs
                (initModule SkipClaims.skippingInput sampleFuncs
                   SkipClaims.diskWithMain).1).1
      = events (initModule SkipClaims.skippingInput sampleFuncs
                  SkipClaims.diskWithMain).1 ++ new
      ∧ Forall (λ e, ∃ fn, fn ∈ sampleFuncs.*1
                           ∧ e = Log (DebugSkip fn
                                        (Name (InputTask SkipClaims.skippingInput))))
          new.
Proof.
  apply render_again_skips_every_file.
  - decide_by_computation.
  - reflexivity.
  - vm_compute. reflexivity.
Defined.

End RenderFacts.

(** ** The errors of [newMainTF] *)

Module MainFileErrors.
Import tftmpl MainFile StringFacts.

(** X17.  [newMainTF] returns an error exactly when the second or the
    third write to the writer fails, that is the write of the task
    preamble or the write of the document; a failure of the first write
    alone does not matter. *)
Theorem newMainTF_error_iff
    (requiredVersion : string) (w : io.Writer) (filename : string)
    (d : RootModuleInputData) :
  (newMainTF requiredVersion w filename d).2 = None
  ↔ io.faults w !! 1 ≠ Some true ∧ io.faults w !! 2 ≠ Some true.
Proof.
  unfold newMainTF, writePreamble, io.Write.
  destruct w as [out fs]. simpl.
  destruct fs as [|a [|b [|c fs]]]; try destruct a; try destruct b;
    try destruct c; simpl; split; intros H; try done;
    try (by destruct H as [? ?]).
Qed.

End MainFileErrors.

(** ** The terraform driver *)

Module DriverFacts.
Import driver.

Section Init.
Context {World error : Type}.
Variable terraformInstalled : string → World → bool.
Variable install : Terraform → World → World * option error.

(** X19.  [Init] installs at most once: when a successful [install]
    leaves terraform installed at the path, an [Init] that returned no
    error is followed by an [Init] that installs nothing, changes
    nothing and returns no error; the driver made from a configuration
    keeps the pinned version throughout. *)
Theorem Init_installs_once
    (config : TerraformConfig) (w w1 : World) (logged : list LogEntry) :
  (∀ tf w w', install tf w = (w', None) →
              terraformInstalled (path tf) w' = true) →
  Init terraformInstalled install (NewTerraform config) w = (w1, logged, None) →
  Init terraformInstalled install (NewTerraform config) w1
  = (w1, [InfoSkipping (Path config)], None)
  ∧ Version (NewTerraform config) = terraformVersion.
Proof.
  intros Hinstall. unfold Init.
  destruct (terraformInstalled (path (NewTerraform config)) w) eqn:E; simpl.
  - intros [= <- _]. simpl in E. by rewrite E.
  - destruct (install (NewTerraform config) w) as [w' [e|]] eqn:Ei; [done|].
    intros [= <- _]. apply Hinstall in Ei. simpl in Ei. by rewrite Ei.
Qed.

End Init.

(** A world that is the set of the paths where terraform is installed. *)
Definition installedAt (p : string) (w : gset string) : bool :=
  bool_decide (p ∈ w).

Definition installAt (tf : Terraform) (w : gset string)
    : gset string * option unit :=
  ({[ path tf ]} ∪ w, None).

Definition sampleConfig : TerraformConfig :=
  mkTerraformConfig "INFO" "/opt/bin" "data" "work" false None.

Lemma Init_installs_once_witness :
  Init installedAt installAt (NewTerraform sampleConfig) ({[ "/opt/bin" ]} ∪ ∅)
  = ({[ "/opt/bin" ]} ∪ ∅, [InfoSkipping (Path sampleConfig)], None)
  ∧ Version (NewTerraform sampleConfig) = terraformVersion.
Proof.
  apply (Init_installs_once installedAt installAt sampleConfig ∅
           ({[ "/opt/bin" ]} ∪ ∅)
           [InfoInstalling terraformVersion "/opt/bin"; InfoInstalled]).
  - intros tf w w' [= <-]. unfold installedAt.
    apply bool_decide_eq_true. set_solver.
  - reflexivity.
Defined.

End DriverFacts.
